(** * InstaMath/fixInfoPlist.py: the pbxproj patch script

    A shallow embedding of the script that removes the
    [InstaMathInfo.plist] entry from the "Copy Bundle Resources" build
    phases of an Xcode [project.pbxproj].

    Modelling conventions.
    - A Python [str] is a list of code points, each a number in [N].
    - A file holds bytes. A file opened in text mode is decoded and
      encoded as UTF-8, the locale encoding on macOS, with the default
      [errors='strict']: reading bytes that are not well-formed UTF-8
      raises [UnicodeDecodeError].
    - The file system is a finite map from paths to the contents of
      regular files, all of them readable and writable.
    - The script's effects (file system, standard output, uncaught
      exceptions, [exit]) are threaded through a small monad [M]; every
      file-system call is also recorded in a trace, in program order. *)

From Stdlib Require Import Ascii String NArith.
From Stdlib.Strings Require Import Byte.
From stdpp Require Import base list strings gmap.
From Equations Require Import Equations.

Local Open Scope list_scope.

(** ** Python strings *)

Abbreviation text := (list N).
Abbreviation bytes := (list byte).

(** The code point of an ASCII character. *)
Definition ord (a : ascii) : N := N_of_ascii a.

Arguments ord a%_char.

(** The [str] of a literal of the script. *)
Definition txt (s : string) : text := ord <$> list_ascii_of_string s.

Module Py.

Definition LF : N := 10.
Definition CR : N := 13.

Definition eqc (a b : N) : bool := N.eqb a b.

(** [s.startswith(p)] *)
Fixpoint startswith (p s : text) : bool :=
  match p, s with
  | [], _ => true
  | _ :: _, [] => false
  | a :: p', b :: s' => eqc a b && startswith p' s'
  end.

(** [s.endswith(p)] *)
Definition endswith (p s : text) : bool :=
  startswith (reverse p) (reverse s).

(** [sub in s] *)
Fixpoint contains (sub s : text) : bool :=
  startswith sub s ||
  match s with
  | [] => false
  | _ :: s' => contains sub s'
  end.

(** [c in chars], for a single character *)
Definition char_in (chars : text) (c : N) : bool :=
  existsb (eqc c) chars.

(** [str.isspace] on one character: the code points that CPython's
    [_PyUnicode_IsWhitespace] accepts. *)
Definition isspace (c : N) : bool :=
  ((9 <=? c) && (c <=? 13) || (28 <=? c) && (c <=? 32)
   || (c =? 133) || (c =? 160) || (c =? 5760)
   || (8192 <=? c) && (c <=? 8202)
   || (c =? 8232) || (c =? 8233) || (c =? 8239) || (c =? 8287)
   || (c =? 12288))%N.

(** [s.lstrip(...)] with the set of characters given as a predicate *)
Fixpoint lstrip_by (f : N -> bool) (s : text) : text :=
  match s with
  | [] => []
  | c :: s' => if f c then lstrip_by f s' else s
  end.

Definition rstrip_by (f : N -> bool) (s : text) : text :=
  reverse (lstrip_by f (reverse s)).

(** [s.strip()] *)
Definition strip (s : text) : text := rstrip_by isspace (lstrip_by isspace s).

(** [s.rstrip(chars)] *)
Definition rstrip (chars s : text) : text := rstrip_by (char_in chars) s.

(** [s.split(sep)] for a separator of one character *)
Fixpoint split (sep : N) (s : text) : list text :=
  match s with
  | [] => [[]]
  | c :: s' =>
      if eqc c sep then [] :: split sep s'
      else match split sep s' with
           | l :: ls => (c :: l) :: ls
           | [] => [[c]]
           end
  end.

(** [sep.join(parts)] *)
Fixpoint join (sep : text) (parts : list text) : text :=
  match parts with
  | [] => []
  | [p] => p
  | p :: ps => p ++ sep ++ join sep ps
  end.

(** [s.replace(old, new)] for a non-empty [old = o :: old']: the
    occurrences of [old] are taken from the left and do not overlap. *)
Equations? replace_from (o : N) (old' new s : text) : text
  by wf (length s) lt :=
  replace_from o old' new nil := nil;
  replace_from o old' new (cons c s') :=
    if startswith (o :: old') (c :: s')
    then new ++ replace_from o old' new (drop (length old') s')
    else c :: replace_from o old' new s'.
Proof.
  all: try rewrite length_drop; simpl; lia.
Qed.

(** [s.replace(old, new)]; an empty [old] matches before every character
    and at the end of [s]. *)
Definition replace (old new s : text) : text :=
  match old with
  | [] => new ++ flat_map (fun c => c :: new) s
  | o :: old' => replace_from o old' new s
  end.

End Py.

(** ** The UTF-8 codec

    [bytes.decode('utf-8')] and [str.encode('utf-8')] with
    [errors='strict']; [None] stands for [UnicodeDecodeError] and
    [UnicodeEncodeError]. *)

Module Utf8.

Local Open Scope N_scope.

(** A continuation byte, [10xxxxxx]. *)
Definition cont (b : N) : bool := (128 <=? b) && (b <=? 191).

(** The second byte that may follow the lead byte [b0] of a sequence of
    three or four bytes: no overlong form, no surrogate, nothing above
    U+10FFFF. *)
Definition second_ok (b0 b1 : N) : bool :=
  if b0 =? 224 then (160 <=? b1) && (b1 <=? 191)
  else if b0 =? 237 then (128 <=? b1) && (b1 <=? 159)
  else if b0 =? 240 then (144 <=? b1) && (b1 <=? 191)
  else if b0 =? 244 then (128 <=? b1) && (b1 <=? 143)
  else cont b1.

Fixpoint decode (bs : bytes) : option text :=
  match bs with
  | [] => Some []
  | x0 :: r0 =>
      let b0 := Byte.to_N x0 in
      if b0 <? 128 then cons b0 <$> decode r0
      else if (194 <=? b0) && (b0 <=? 223) then
        match r0 with
        | x1 :: r1 =>
            let b1 := Byte.to_N x1 in
            if cont b1
            then cons ((b0 - 192) * 64 + (b1 - 128)) <$> decode r1
            else None
        | _ => None
        end
      else if (224 <=? b0) && (b0 <=? 239) then
        match r0 with
        | x1 :: x2 :: r2 =>
            let b1 := Byte.to_N x1 in
            let b2 := Byte.to_N x2 in
            if second_ok b0 b1 && cont b2
            then cons (((b0 - 224) * 64 + (b1 - 128)) * 64 + (b2 - 128))
                   <$> decode r2
            else None
        | _ => None
        end
      else if (240 <=? b0) && (b0 <=? 244) then
        match r0 with
        | x1 :: x2 :: x3 :: r3 =>
            let b1 := Byte.to_N x1 in
            let b2 := Byte.to_N x2 in
            let b3 := Byte.to_N x3 in
            if second_ok b0 b1 && cont b2 && cont b3
            then cons ((((b0 - 240) * 64 + (b1 - 128)) * 64 + (b2 - 128)) * 64
                       + (b3 - 128))
                   <$> decode r3
            else None
        | _ => None
        end
      else None
  end.

(** The code points a [str] that was decoded can hold: all up to
    U+10FFFF but the surrogates. *)
Definition scalar (c : N) : bool :=
  (c <? 55296) || (57344 <=? c) && (c <? 1114112).

Definition byte_of_N (n : N) : byte := default Byte.x00 (Byte.of_N n).

Definition encode_char (c : N) : option bytes :=
  if negb (scalar c) then None
  else if c <? 128 then Some [byte_of_N c]
  else if c <? 2048 then
    Some [byte_of_N (192 + c / 64); byte_of_N (128 + c mod 64)]
  else if c <? 65536 then
    Some [byte_of_N (224 + c / 64 / 64); byte_of_N (128 + (c / 64) mod 64);
          byte_of_N (128 + c mod 64)]
  else
    Some [byte_of_N (240 + c / 64 / 64 / 64);
          byte_of_N (128 + (c / 64 / 64) mod 64);
          byte_of_N (128 + (c / 64) mod 64); byte_of_N (128 + c mod 64)].

Fixpoint encode (t : text) : option bytes :=
  match t with
  | [] => Some []
  | c :: t' => bs ← encode_char c; rest ← encode t'; Some (bs ++ rest)
  end.

End Utf8.

(** ** Occurrences of a text in another *)

(** [sub] occurs in [s]: what [sub in s] tests. *)
Definition occurs (sub s : text) : Prop := exists a b, s = a ++ sub ++ b.

(** [p] starts at no position inside [g] when [g] is followed by
    [rest]. *)
Definition no_start (p g rest : text) : Prop :=
  forall a b, g = a ++ b -> b <> [] -> ~ p `prefix_of` (b ++ rest).

(** No proper end of [p] is also a beginning of [p]: two occurrences of
    [p] cannot overlap. *)
Definition unbordered (p : text) : Prop :=
  forall a b c, p = a ++ b -> p = b ++ c -> a = [] \/ b = [].

(** A check, by running through the lengths, that [p] has no border. *)
Definition borderless (p : text) : bool :=
  forallb (fun k => bool_decide (drop (length p - k) p <> take k p))
          (seq 1 (length p - 1)).

(** ** The regular expression

    [r'/\* Copy Bundle Resources \*/ = \{(.*?)\};'] compiled with
    [re.DOTALL]: a literal header, a lazy group in which every character
    matches, and a literal closer. *)

Module Re.
Import Py.

Definition header : text := txt "/* Copy Bundle Resources */ = {".
Definition closer : text := txt "};".

Arguments header : simpl never.
Arguments closer : simpl never.

(** [(.*?)] followed by the closer: the group is tried with no
    character, then one, then two, ... and the first length after which
    the closer follows wins. The result is the text of the group. *)
Fixpoint lazy_group (s : text) : option text :=
  if startswith closer s then Some []
  else match s with
       | [] => None
       | c :: s' => cons c <$> lazy_group s'
       end.

(** A match attempt at the start of [s]; the result is [group(0)]. *)
Definition match_here (s : text) : option text :=
  if startswith header s then
    g ← lazy_group (drop (length header) s);
    Some (header ++ g ++ closer)
  else None.

(** [m.group(0) for m in re.finditer(pattern, s, re.DOTALL)]: a match is
    tried at each position from the left; after a match the scan resumes
    where the match ended (a match of this pattern is never empty). *)
Equations? finditer (s : text) : list text by wf (length s) lt :=
  finditer nil := nil;
  finditer (cons c s') with match_here (c :: s') := {
    | Some m => m :: finditer (drop (length m - 1) s');
    | None => finditer s' }.
Proof.
  all: try rewrite length_drop; simpl; lia.
Qed.

End Re.

(** ** The world the script runs in *)

Inductive exn :=
| FileNotFoundError (path : string)
| UnicodeDecodeError
| UnicodeEncodeError.

Inductive fs_event :=
| ev_exists (path : string)
| ev_copy (src dst : string)
| ev_read (path : string)
| ev_write (path : string).

Record world := World {
  files : gmap string bytes;
  stdout : list string;
  trace : list fs_event
}.

Inductive outcome (A : Type) :=
| Ret (a : A)
| Exited (status : nat)
| Raised (e : exn).
Arguments Ret {A} a.
Arguments Exited {A} status.
Arguments Raised {A} e.

Definition M (A : Type) : Type := world -> outcome A * world.

#[global] Instance M_ret : MRet M := fun A a w => (Ret a, w).

#[global] Instance M_bind : MBind M := fun A B k m w =>
  match m w with
  | (Ret a, w') => k a w'
  | (Exited n, w') => (Exited n, w')
  | (Raised e, w') => (Raised e, w')
  end.

Definition record (e : fs_event) (w : world) : world :=
  World (files w) (stdout w) (trace w ++ [e]).

(** [print(msg)] *)
Definition print (msg : string) : M unit := fun w =>
  (Ret tt, World (files w) (stdout w ++ [msg]) (trace w)).

(** [exit(status)]: raises [SystemExit], which nothing catches. *)
Definition py_exit (status : nat) : M unit := fun w => (Exited status, w).

(** [os.path.exists(path)] *)
Definition os_path_exists (path : string) : M bool := fun w =>
  (Ret (bool_decide (is_Some (files w !! path))), record (ev_exists path) w).

(** [shutil.copy2(src, dst)]: the bytes are copied as they are. *)
Definition shutil_copy2 (src dst : string) : M unit := fun w =>
  let w' := record (ev_copy src dst) w in
  match files w !! src with
  | Some raw => (Ret tt, World (<[dst := raw]> (files w')) (stdout w') (trace w'))
  | None => (Raised (FileNotFoundError src), w')
  end.

(** What a file opened in mode ['r'] delivers of the decoded text: with
    the default [newline=None] the line ends ["\r\n"] and ["\r"] arrive
    as ["\n"]. *)
Fixpoint universal_newlines (s : text) : text :=
  match s with
  | [] => []
  | c :: rest =>
      if Py.eqc c Py.CR then
        match rest with
        | c' :: rest' =>
            if Py.eqc c' Py.LF then Py.LF :: universal_newlines rest'
            else Py.LF :: universal_newlines rest
        | [] => [Py.LF]
        end
      else c :: universal_newlines rest
  end.

(** [with open(path, 'r') as f: f.read()]: the bytes of the file are
    decoded, then the line ends are translated. *)
Definition read_text (path : string) : M text := fun w =>
  let w' := record (ev_read path) w in
  match files w !! path with
  | Some raw =>
      match Utf8.decode raw with
      | Some decoded => (Ret (universal_newlines decoded), w')
      | None => (Raised UnicodeDecodeError, w')
      end
  | None => (Raised (FileNotFoundError path), w')
  end.

(** [with open(path, 'w') as f: f.write(data)]: opening truncates the
    file, then the encoded text is written. The script's path is a macOS
    one, where [os.linesep] is ["\n"] and no line end is translated. *)
Definition write_text (path : string) (data : text) : M unit := fun w =>
  let w' := record (ev_write path) w in
  match Utf8.encode data with
  | Some raw => (Ret tt, World (<[path := raw]> (files w')) (stdout w') (trace w'))
  | None =>
      (Raised UnicodeEncodeError,
       World (<[path := []]> (files w')) (stdout w') (trace w'))
  end.

(** [for x in xs: st = body(st, x)] *)
Fixpoint for_each {A S : Type} (body : S -> A -> M S) (xs : list A) (st : S)
  : M S :=
  match xs with
  | [] => mret st
  | x :: xs' => st' ← body st x; for_each body xs' st'
  end.

(** ** The script *)

Definition pbxproj_path : string :=
  "/Users/admin/Desktop/InstaMath/InstaMath.xcodeproj/project.pbxproj".

Definition backup_path : string := pbxproj_path +:+ ".bak".

Definition plist : text := txt "InstaMathInfo.plist".

Arguments pbxproj_path : simpl never.
Arguments backup_path : simpl never.
Arguments plist : simpl never.

(** The body run for the first line that names the plist: the comma at
    the end of the line before it is dropped, then [lines.pop(i)]. *)
Definition drop_entry (lines : list text) (i : nat) : list text :=
  let lines1 :=
    match i with
    | S j =>
        match lines !! j with
        | Some prev =>
            if Py.endswith (txt ",") (Py.strip prev)
            then <[j := Py.rstrip (txt ",") prev]> lines
            else lines
        | None => lines
        end
    | O => lines
    end in
  delete i lines1.

Arguments drop_entry : simpl never.

(** [for i, line in enumerate(lines)] up to its [break]: [rest] are the
    lines from index [i] on. [None] when the loop ends without a hit. *)
Fixpoint scan_lines (lines : list text) (i : nat) (rest : list text)
  : option (list text) :=
  match rest with
  | [] => None
  | line :: rest' =>
      if Py.contains plist line then Some (drop_entry lines i)
      else scan_lines lines (S i) rest'
  end.

(** The text that replaces a section, [modified_section]. *)
Definition modified_section (section : text) : option text :=
  let lines := Py.split Py.LF section in
  Py.join [Py.LF] <$> scan_lines lines 0 lines.

(** One round of [for section in copy_resources_sections], on the state
    [(new_content, modified)]. *)
Definition patch_section (st : text * bool) (section : text) : M (text * bool) :=
  if Py.contains plist section then
    print "Found InstaMathInfo.plist in Copy Bundle Resources";;
    match modified_section section with
    | Some modified =>
        print "Removed InstaMathInfo.plist from Copy Bundle Resources";;
        mret (Py.replace section modified (fst st), true)
    | None => mret st
    end
  else mret st.

(** The script, top to bottom. [exit(1)] ends the run, so what follows
    the first [if] is reached only when the file exists. *)
Definition script : M unit :=
  found ← os_path_exists pbxproj_path;
  (if negb found
   then print ("Error: " +:+ pbxproj_path +:+ " not found");; py_exit 1
   else mret tt);;
  shutil_copy2 pbxproj_path backup_path;;
  print ("Created backup at " +:+ backup_path);;
  content ← read_text pbxproj_path;
  let copy_resources_sections := Re.finditer content in
  st ← for_each patch_section copy_resources_sections (content, false);
  let '(new_content, modified) := (st : text * bool) in
  if modified
  then write_text pbxproj_path new_content;;
       print "Successfully updated project.pbxproj"
  else print "No changes were made".

(** A run of the script from the file system [fs], with nothing printed
    yet. *)
Definition run (fs : gmap string bytes) : outcome unit * world :=
  script (World fs [] []).

(** The exit status of the interpreter: 0 at the end of the script, the
    argument of [exit], 1 for an uncaught exception. *)
Definition exit_status {A : Type} (o : outcome A) : nat :=
  match o with
  | Ret _ => 0
  | Exited n => n
  | Raised _ => 1
  end.

(** ** Pure readings of the loop, used to state what a run computes *)

(** The state [(new_content, modified)] after one round of the loop. *)
Definition step_state (st : text * bool) (section : text) : text * bool :=
  if Py.contains plist section then
    match modified_section section with
    | Some modified => (Py.replace section modified (fst st), true)
    | None => st
    end
  else st.

(** What one round of the loop prints. *)
Definition step_output (section : text) : list string :=
  if Py.contains plist section then
    "Found InstaMathInfo.plist in Copy Bundle Resources" ::
    match modified_section section with
    | Some _ => ["Removed InstaMathInfo.plist from Copy Bundle Resources"]
    | None => []
    end
  else [].

(** The state after all the rounds on the text [content]. *)
Definition rounds (content : text) : text * bool :=
  fold_left step_state (Re.finditer content) (content, false).

(** The paths an event touches. *)
Definition event_paths (e : fs_event) : list string :=
  match e with
  | ev_exists p | ev_read p | ev_write p => [p]
  | ev_copy src dst => [src; dst]
  end.

(** The first line that names the plist, with its index: where the
    inner loop stops. *)
Definition first_hit (lines : list text) : option (nat * text) :=
  list_find (fun line => Py.contains plist line = true) lines.

(** ** Sections *)

(** The text of a section with body [b]. *)
Definition section_of (b : text) : text := Re.header ++ b ++ Re.closer.

(** A section that names the plist on one line only, a line that is
    neither the first nor the last of the section. *)
Definition tidy (section : text) : Prop :=
  let lines := Py.split Py.LF section in
  exists i line,
    first_hit lines = Some (i, line) /\ 0 < i /\ S i < length lines /\
    forall j l, i < j -> lines !! j = Some l -> Py.contains plist l = false.

(** [tidy] as a check that runs. *)
Definition tidyb (section : text) : bool :=
  let lines := Py.split Py.LF section in
  match first_hit lines with
  | Some (i, _) =>
      (0 <? i) && (S i <? length lines) &&
      forallb (fun l => negb (Py.contains plist l)) (drop (S i) lines)
  | None => false
  end.

(** The text that the round of a section puts in its place; a section
    without the plist has no round. *)
Definition patched (section : text) : text :=
  if Py.contains plist section
  then default section (modified_section section)
  else section.

(** A text that ends with [old] gets [new] as its end. *)
Definition swap_end (old new y : text) : text :=
  if Py.endswith old y then take (length y - length old) y ++ new else y.

(** How a match of the content stands in [new_content] while the
    rounds in [todo] are still to come: as it was, its round still to
    come if it holds the plist, or as its round leaves it. *)
Definition stands (todo : list text) (x c : text) : Prop :=
  c = x /\ (Py.contains plist x = true -> x ∈ todo) \/
  Py.contains plist x = true /\ c = patched x.

(** ** Sample project files *)

Module Samples.

(** One build phase that lists the plist once. *)
Definition project : text := txt
"// !$*UTF8*$!
/* Begin PBXResourcesBuildPhase section */
		8A01 /* Copy Bundle Resources */ = {
			isa = PBXResourcesBuildPhase;
			files = (
				8A11 /* Assets.xcassets in Resources */,
				8A12 /* InstaMathInfo.plist in Resources */,
			);
		};
/* End PBXResourcesBuildPhase section */
".

(** The same file without the plist entry. *)
Definition clean_project : text := txt
"// !$*UTF8*$!
/* Begin PBXResourcesBuildPhase section */
		8A01 /* Copy Bundle Resources */ = {
			isa = PBXResourcesBuildPhase;
			files = (
				8A11 /* Assets.xcassets in Resources */,
			);
		};
/* End PBXResourcesBuildPhase section */
".

(** A build phase that lists the plist on two lines. *)
Definition listed_twice : text := txt
"		8A01 /* Copy Bundle Resources */ = {
			files = (
				8A12 /* InstaMathInfo.plist in Resources */,
				8A13 /* InstaMathInfo.plist in Resources */,
			);
		};
".

(** A section of the simplest kind, and a file in which its text occurs
    twice: once as a match of its own and once at the end of a longer
    match. *)
Definition section : text := txt
"/* Copy Bundle Resources */ = {
	8A11 /* Assets.xcassets in Resources */,
	8A12 /* InstaMathInfo.plist in Resources */,
};".

Definition gaps : list text :=
  [txt "8A01 "; txt "
8A02 /* Copy Bundle Resources */ = { "; txt "
"].

Definition repeated : text := Py.join section gaps.

(** A project with two targets, each listing the plist once. *)
Definition two_targets : text := txt
"// !$*UTF8*$!
/* Begin PBXResourcesBuildPhase section */
		8A01 /* Copy Bundle Resources */ = {
			isa = PBXResourcesBuildPhase;
			files = (
				8A11 /* Assets.xcassets in Resources */,
				8A12 /* InstaMathInfo.plist in Resources */,
			);
		};
		8B01 /* Copy Bundle Resources */ = {
			isa = PBXResourcesBuildPhase;
			files = (
				8B12 /* InstaMathInfo.plist in Resources */,
				8B11 /* Preview.xcassets in Resources */,
			);
		};
/* End PBXResourcesBuildPhase section */
".

(** Two build phases: the first lists the plist twice, and without the
    first of these two lines it reads as the second phase does. *)
Definition twice_listed_phase : text := txt
"/* Copy Bundle Resources */ = {
	8A12 /* InstaMathInfo.plist in Resources */,
	8A13 /* InstaMathInfo.plist in Resources */,
};".

Definition once_listed_phase : text := txt
"/* Copy Bundle Resources */ = {
	8A13 /* InstaMathInfo.plist in Resources */,
};".

Definition emptied_phase : text := txt
"/* Copy Bundle Resources */ = {
};".

Definition stacked : text :=
  txt "A " ++ twice_listed_phase ++ txt "
B " ++ once_listed_phase ++ txt "
".

(** A build phase whose text is also the end of a longer match, a match
    that starts at a header left open before it; the longer match comes
    twice. *)
Definition inner_phase : text := txt
"/* Copy Bundle Resources */ = {
	8A12 /* InstaMathInfo.plist in Resources */,
};".

Definition open_header : text := txt
"/* Copy Bundle Resources */ = {
	8A10 /* InstaMathInfo.plist */,
	8A01 ".

Definition outer_phase : text := open_header ++ inner_phase.

Definition nested_gaps : list text :=
  [inner_phase ++ [Py.LF]; [Py.LF]; [Py.LF]].

Definition nested : text := Py.join outer_phase nested_gaps.

(** A build phase that closes on the line that names the plist, with a
    comment on the plist after it. *)
Definition closed_on_entry : text := txt
"/* Copy Bundle Resources */ = {
	8A11 /* Assets.xcassets in Resources */,
	8A12 /* InstaMathInfo.plist in Resources */ };
/* InstaMathInfo.plist is bundled by hand */
};
".

(** A build phase that names the plist on its first line, and whose
    text is also the end of a longer match that does the same. *)
Definition entry_on_header_line : text := txt
"/* Copy Bundle Resources */ = { /* InstaMathInfo.plist */
	8A11 /* Assets.xcassets in Resources */,
};".

Definition headed_twice : text :=
  entry_on_header_line ++
  txt "
/* Copy Bundle Resources */ = { /* InstaMathInfo.plist */ 8B01 " ++
  entry_on_header_line ++ [Py.LF].

(** A section written on one line. *)
Definition one_line_section : text := txt
"/* Copy Bundle Resources */ = { files = ( 8A12 /* InstaMathInfo.plist */, ); };".

(** The sample project with Windows line ends. *)
Definition windows_project : text :=
  Py.join [Py.CR; Py.LF] (Py.split Py.LF project).

(** The sample project with a comment in Latin-1: the byte [0xE9]
    stands for an e with an acute accent, and is not UTF-8. *)
Definition latin1_comment : bytes :=
  list_byte_of_string "// caf" ++ [Byte.xe9] ++ list_byte_of_string "
".

(** The bytes of a file that holds the text [t]. *)
Definition utf8 (t : text) : bytes := default [] (Utf8.encode t).

Definition latin1_project : bytes := latin1_comment ++ utf8 project.

Definition latin1_clean_project : bytes := latin1_comment ++ utf8 clean_project.

Definition fs_of (raw : bytes) : gmap string bytes := {[ pbxproj_path := raw ]}.

(** The same file system with one more file, at another path. *)
Definition fs_with_notes (raw : bytes) : gmap string bytes :=
  <["/Users/admin/Desktop/notes.txt" := utf8 (txt "remember the plist")]>
    (fs_of raw).

End Samples.

(** ** Facts about the string operations *)

(** Simplification that leaves the script's constants folded. *)
Ltac calc :=
  cbn -[Re.header Re.closer plist pbxproj_path backup_path].

Module PyFacts.
Import Py.

Lemma eqc_eq a b : eqc a b = true <-> a = b.
Proof. apply N.eqb_eq. Qed.

Lemma eqc_refl a : eqc a a = true.
Proof. by apply eqc_eq. Qed.

Lemma eqc_neq a b : eqc a b = false <-> a <> b.
Proof. unfold eqc. apply N.eqb_neq. Qed.

Lemma startswith_prefix p s : startswith p s = true <-> p `prefix_of` s.
Proof.
  revert s. induction p as [|a p IH]; intros [|b s]; cbn.
  - split; [intros _; apply prefix_nil | done].
  - split; [intros _; apply prefix_nil | done].
  - split; [done | intros H; by apply prefix_nil_not in H].
  - rewrite andb_true_iff, eqc_eq, IH. split.
    + intros [-> H]. by apply prefix_cons.
    + intros H. split; [by apply prefix_cons_inv_1 in H | by apply prefix_cons_inv_2 in H].
Qed.

Lemma startswith_app p r : startswith p (p ++ r) = true.
Proof. apply startswith_prefix. by exists r. Qed.

Lemma startswith_false p s : startswith p s = false <-> ~ p `prefix_of` s.
Proof. rewrite <- startswith_prefix. by destruct (startswith p s). Qed.

Lemma contains_occurs sub s : contains sub s = true <-> occurs sub s.
Proof.
  induction s as [|c s IH]; cbn.
  - rewrite orb_false_r, startswith_prefix. split.
    + intros [r ->]. by exists [], r.
    + intros (a & b & H). symmetry in H.
      apply app_eq_nil in H as [-> H]. apply app_eq_nil in H as [-> _].
      apply prefix_nil.
  - rewrite orb_true_iff, startswith_prefix, IH. split.
    + intros [[r ->] | (a & b & ->)].
      * by exists [], r.
      * by exists (c :: a), b.
    + intros ([|c' a] & b & H); cbn in H.
      * left. exists b. done.
      * right. injection H as -> ->. by exists a, b.
Qed.

Lemma contains_false sub s : contains sub s = false <-> ~ occurs sub s.
Proof. rewrite <- contains_occurs. by destruct (contains sub s). Qed.

Lemma occurs_refl s : occurs s s.
Proof. exists [], []. by rewrite app_nil_r. Qed.

Lemma occurs_app_l sub a b : occurs sub a -> occurs sub (a ++ b).
Proof. intros (x & y & ->). exists x, (y ++ b). by rewrite <- !app_assoc. Qed.

Lemma occurs_app_r sub a b : occurs sub b -> occurs sub (a ++ b).
Proof. intros (x & y & ->). exists (a ++ x), y. by rewrite <- !app_assoc. Qed.

Lemma occurs_trans a b c : occurs a b -> occurs b c -> occurs a c.
Proof.
  intros (x & y & ->) (x' & y' & ->). exists (x' ++ x), (y ++ y').
  by rewrite <- !app_assoc.
Qed.

(** A text without the character [c] that occurs in [a ++ c :: b] lies
    on one side of that [c]. *)
Lemma occurs_around sub c a b :
  c ∉ sub -> occurs sub (a ++ c :: b) -> occurs sub a \/ occurs sub b.
Proof.
  intros Hc (x & y & H). apply app_eq_inv in H as [(k & -> & H) | (k & -> & H)].
  - apply app_eq_inv in H as [(k' & -> & H) | (k' & -> & H)].
    + destruct k' as [|c' k'].
      * left. exists x, []. by rewrite !app_nil_r.
      * injection H as -> _. exfalso. apply Hc.
        apply elem_of_app. right. by left.
    + left. by exists x, k'.
  - destruct k as [|c' k]; cbn in H.
    + destruct sub as [|c' sub].
      * left. exists a, []. by rewrite app_nil_r.
      * injection H as -> _. exfalso. apply Hc. by left.
    + injection H as _ ->. right. by exists k, y.
Qed.

Lemma split_cons_ne sep s : split sep s <> [].
Proof.
  destruct s as [|c s]; cbn; [done|].
  destruct (eqc c sep); [done|]. by destruct (split sep s).
Qed.

(** ['\n'.join(s.split('\n'))] is [s]. *)
Lemma join_split sep s : join [sep] (split sep s) = s.
Proof.
  induction s as [|c s IH]; [done|]. cbn.
  destruct (eqc c sep) eqn:E.
  - apply eqc_eq in E as ->. pose proof (split_cons_ne sep s).
    destruct (split sep s); [done|]. cbn in *. by rewrite IH.
  - pose proof (split_cons_ne sep s).
    destruct (split sep s) as [|l [|l' ls]]; [done|..]; cbn in *; by rewrite <- IH.
Qed.

(** No line of [s.split('\n')] holds a line feed. *)
Lemma split_no_sep sep s l : l ∈ split sep s -> sep ∉ l.
Proof.
  revert l. induction s as [|c s IH]; intros l; cbn.
  - intros ->%list_elem_of_singleton. apply not_elem_of_nil.
  - destruct (eqc c sep) eqn:E.
    + intros [-> | H]%elem_of_cons; [apply not_elem_of_nil | by apply IH].
    + pose proof (split_cons_ne sep s).
      destruct (split sep s) as [|l0 ls]; [done|].
      intros [-> | H']%elem_of_cons.
      * apply not_elem_of_cons. split.
        -- apply eqc_neq in E. congruence.
        -- apply IH. by left.
      * apply IH. by right.
Qed.

Lemma join_cons sep p ps :
  ps <> [] -> join sep (p :: ps) = p ++ sep ++ join sep ps.
Proof. by destruct ps. Qed.

(** A non-empty text without the separator occurs in a joined text
    exactly when it occurs in one of the parts. *)
Lemma occurs_join sub c parts :
  sub <> [] -> c ∉ sub ->
  occurs sub (join [c] parts) <-> exists p, p ∈ parts /\ occurs sub p.
Proof.
  intros Hne Hc. induction parts as [|p ps IH].
  - cbn. split.
    + intros (a & b & H). symmetry in H.
      apply app_eq_nil in H as [_ H]. by apply app_eq_nil in H as [-> _].
    + intros (p & Hp & _). by apply elem_of_nil in Hp.
  - destruct ps as [|p' ps].
    + cbn. split.
      * intros H. exists p. split; [by left | done].
      * intros (q & ->%list_elem_of_singleton & H). done.
    + rewrite join_cons by done. cbn [app]. split.
      * intros [H | H]%occurs_around; [|by apply IH in H as (q & ? & ?); exists q; split; [right|]|done].
        exists p. split; [by left | done].
      * intros (q & [-> | Hq]%elem_of_cons & H).
        -- by apply occurs_app_l.
        -- apply occurs_app_r, (occurs_app_r _ [c]), IH. by exists q.
Qed.

Lemma lstrip_by_all f t s :
  Forall (fun c => f c = true) t -> lstrip_by f (t ++ s) = lstrip_by f s.
Proof. induction 1 as [|c t Hc _ IH]; cbn; [done | by rewrite Hc]. Qed.

Lemma lstrip_by_keeps f a c b :
  f c = false -> exists u, lstrip_by f (a ++ c :: b) = u ++ c :: b.
Proof.
  intros Hc. induction a as [|x a [u IH]]; cbn.
  - exists []. by rewrite Hc.
  - destruct (f x); [by exists u | by exists (x :: a)].
Qed.

Lemma rstrip_by_all f s t :
  Forall (fun c => f c = true) t -> rstrip_by f (s ++ t) = rstrip_by f s.
Proof.
  intros Ht. unfold rstrip_by. rewrite reverse_app, lstrip_by_all; [done|].
  by apply Forall_reverse.
Qed.

Lemma rstrip_by_stop f s c : f c = false -> rstrip_by f (s ++ [c]) = s ++ [c].
Proof.
  intros Hc. unfold rstrip_by. rewrite reverse_app, reverse_singleton.
  cbn -[reverse]. rewrite Hc. by rewrite reverse_cons, reverse_involutive.
Qed.

Lemma rstrip_by_nil f : rstrip_by f [] = [].
Proof. done. Qed.

(** What [rstrip] removes satisfies the predicate. *)
Lemma rstrip_by_split f s :
  exists t, s = rstrip_by f s ++ t /\ Forall (fun c => f c = true) t.
Proof.
  induction s as [|c s IH] using rev_ind.
  - by exists [].
  - destruct (f c) eqn:Hc.
    + destruct IH as (t & Hs & Ht). exists (t ++ [c]).
      rewrite (rstrip_by_all f s [c]) by (by constructor). split.
      * rewrite app_assoc. by rewrite <- Hs.
      * apply Forall_app. split; [done | by constructor].
    + exists []. rewrite rstrip_by_stop by done. by rewrite app_nil_r.
Qed.

Lemma endswith_snoc c s : endswith [c] (s ++ [c]) = true.
Proof.
  unfold endswith. rewrite reverse_app, !reverse_singleton.
  cbn -[reverse]. by rewrite eqc_refl.
Qed.

Lemma isspace_not_comma c : isspace c = true -> char_in (txt ",") c = false.
Proof.
  intros Hc. cbn. rewrite orb_false_r. apply eqc_neq. by intros ->.
Qed.

Lemma LF_not_in_plist : LF ∉ plist.
Proof. intros H. by repeat (apply elem_of_cons in H as [H | H]; [done|]); apply elem_of_nil in H. Qed.

Lemma plist_nonempty : plist <> [].
Proof. done. Qed.

(** [needle in section] holds exactly when some line of the section
    names the plist. *)
Lemma contains_plist_lines section :
  contains plist section = true <->
  exists line, line ∈ split LF section /\ contains plist line = true.
Proof.
  rewrite contains_occurs. rewrite <- (join_split LF section) at 1.
  rewrite (occurs_join _ _ _ plist_nonempty LF_not_in_plist).
  by setoid_rewrite contains_occurs.
Qed.

Lemma scan_lines_find lines i rest :
  scan_lines lines i rest =
  (fun hit => drop_entry lines (i + hit.1)) <$> first_hit rest.
Proof.
  unfold first_hit. revert i. induction rest as [|line rest IH]; intros i; [done|].
  cbn. destruct (contains plist line) eqn:E.
  - rewrite decide_True by done. cbn. by rewrite Nat.add_0_r.
  - rewrite decide_False by done. rewrite IH.
    destruct (list_find _ rest) as [[k l]|]; cbn; [|done].
    by rewrite Nat.add_succ_r.
Qed.

Lemma modified_section_first_hit section :
  modified_section section =
  (fun hit => join [LF] (drop_entry (split LF section) hit.1)) <$>
  first_hit (split LF section).
Proof.
  unfold modified_section. rewrite scan_lines_find.
  by destruct (first_hit _) as [[k l]|].
Qed.

Lemma first_hit_exists section :
  contains plist section = true -> is_Some (first_hit (split LF section)).
Proof.
  intros (line & Hin & Hline)%contains_plist_lines.
  by apply (list_find_elem_of _ _ line).
Qed.

(** [drop_entry] spelled out with [take] and [drop]. *)
Lemma drop_entry_0 lines : drop_entry lines 0 = drop 1 lines.
Proof. by destruct lines. Qed.

Lemma insert_at {A} (l1 : list A) x y l2 :
  <[length l1 := y]> (l1 ++ x :: l2) = l1 ++ y :: l2.
Proof. induction l1 as [|z l1 IH]; [done | by f_equal/=]. Qed.

Lemma delete_after {A} (l1 : list A) x l2 :
  delete (S (length l1)) (l1 ++ x :: l2) = l1 ++ x :: drop 1 l2.
Proof.
  induction l1 as [|z l1 IH]; [by destruct l2 | by f_equal/=].
Qed.

Lemma drop_entry_S lines j prev :
  lines !! j = Some prev ->
  drop_entry lines (S j) =
  take j lines ++
  (if endswith (txt ",") (strip prev) then rstrip (txt ",") prev else prev)
  :: drop (S (S j)) lines.
Proof.
  intros Hj. unfold drop_entry. rewrite Hj.
  apply list_elem_of_split_length in Hj as (l1 & l2 & -> & ->).
  rewrite take_app_length.
  replace (drop (S (S (length l1))) (l1 ++ prev :: l2)) with (drop 1 l2).
  - destruct (endswith _ _).
    + by rewrite insert_at, delete_after.
    + by rewrite delete_after.
  - replace (S (S (length l1))) with (length l1 + 2) by lia.
    by rewrite drop_app_add.
Qed.

(** [rstrip(',')] takes away all the commas at the end. *)
Lemma rstrip_commas base n :
  last base <> Some (ord ",") ->
  rstrip (txt ",") (base ++ replicate n (ord ",")) = base.
Proof.
  intros Hlast. unfold rstrip. rewrite rstrip_by_all.
  - destruct base as [|c base _] using rev_ind; [done|].
    apply rstrip_by_stop. rewrite last_snoc in Hlast.
    cbn. rewrite orb_false_r. apply eqc_neq. intros ->. by apply Hlast.
  - apply Forall_replicate. done.
Qed.

(** A line whose last character that is not white space is a comma
    passes the test [strip().endswith(',')]. *)
Lemma strip_endswith_comma base ws :
  Forall (fun c => isspace c = true) ws ->
  endswith (txt ",") (strip (base ++ (ord ",") :: ws)) = true.
Proof.
  intros Hws. unfold strip.
  destruct (lstrip_by_keeps isspace base (ord ",") ws) as [u ->]; [done|].
  rewrite (cons_middle _ u ws), app_assoc, rstrip_by_all by done.
  rewrite rstrip_by_stop by done. apply endswith_snoc.
Qed.

(** [rstrip(',')] leaves a line that ends in white space as it is. *)
Lemma rstrip_after_space base ws :
  ws <> [] -> Forall (fun c => isspace c = true) ws ->
  rstrip (txt ",") (base ++ ws) = base ++ ws.
Proof.
  intros Hne Hws. destruct ws as [|c ws _] using rev_ind; [done|].
  rewrite app_assoc. apply rstrip_by_stop.
  apply Forall_app in Hws as [_ Hc]. apply Forall_inv in Hc.
  by apply isspace_not_comma.
Qed.

(** *** Lines around the removed one *)

Lemma join_app sep l1 l2 :
  l1 <> [] -> l2 <> [] ->
  join sep (l1 ++ l2) = join sep l1 ++ sep ++ join sep l2.
Proof.
  intros H1 H2. induction l1 as [|x l1 IH]; [done|].
  destruct l1 as [|y l1].
  - cbn [app]. by rewrite join_cons.
  - cbn [app] in *. rewrite (join_cons sep x (y :: l1 ++ l2)) by done.
    rewrite (join_cons sep x (y :: l1)) by done.
    rewrite IH by done. by rewrite <- !app_assoc.
Qed.

Lemma join_snoc_app sep l x k :
  join sep (l ++ [x ++ k]) = join sep (l ++ [x]) ++ k.
Proof.
  induction l as [|y l IH]; [done|].
  cbn [app]. rewrite !join_cons by (by destruct l).
  rewrite IH. by rewrite <- !app_assoc.
Qed.

(** The line before the removed one, after the edit, and the commas it
    lost. *)
Lemma comma_edit_split prev :
  exists k,
    prev = (if endswith (txt ",") (strip prev)
            then rstrip (txt ",") prev else prev) ++ k /\
    Forall (fun c => c = (ord ",")) k.
Proof.
  destruct (endswith _ _).
  - destruct (rstrip_by_split (char_in (txt ",")) prev) as (k & Hk & Hall).
    exists k. split; [done|]. eapply Forall_impl; [done|].
    intros c Hc. cbn in Hc. rewrite orb_false_r in Hc. by apply eqc_eq.
  - exists []. by rewrite app_nil_r.
Qed.

Lemma drop_entry_middle l1 prev line l2 :
  drop_entry (l1 ++ prev :: line :: l2) (S (length l1)) =
  l1 ++ (if endswith (txt ",") (strip prev)
         then rstrip (txt ",") prev else prev) :: l2.
Proof.
  rewrite (drop_entry_S _ _ prev) by (by rewrite list_lookup_middle).
  rewrite take_app_length. do 2 f_equal.
  replace (S (S (length l1))) with (length l1 + 2) by lia.
  by rewrite drop_app_add.
Qed.

(** *** Where a text can start *)

Lemma no_start_absent p g : ~ occurs p g -> no_start p g [].
Proof.
  intros Hno a b -> Hb [k Hk]. apply Hno. rewrite app_nil_r in Hk.
  exists a, k. by rewrite Hk.
Qed.

(** A text that is not in [g] and cannot overlap itself does not start
    inside [g] when [g] is followed by that text. *)
Lemma no_start_unbordered p g rest :
  unbordered p -> ~ occurs p g -> no_start p g (p ++ rest).
Proof.
  intros Hub Hno a b -> Hb [k Hk].
  apply app_eq_inv in Hk as [(k' & -> & Hk) | (k' & -> & Hk)].
  - apply Hno. by exists a, k'.
  - (* [p = b ++ k'] and [k'] begins [p ++ rest] *)
    apply app_eq_inv in Hk as [(k2 & Hp & Hk) | (k2 & Hp & Hk)].
    + destruct (Hub b k' k2 eq_refl Hp) as [-> | ->]; [done|].
      apply Hno. exists a, []. by rewrite !app_nil_r.
    + apply (f_equal length) in Hp. rewrite !length_app in Hp.
      destruct b; [done | cbn in Hp; lia].
Qed.

(** *** Occurrences across a seam *)

(** An occurrence of [p] in [u ++ v] lies in [u], or in [v], or across
    the seam. *)
Lemma occurs_app_cases p u v :
  occurs p (u ++ v) ->
  occurs p u \/ occurs p v \/
  exists p1 p2, p = p1 ++ p2 /\ p1 <> [] /\ p2 <> [] /\
                p1 `suffix_of` u /\ p2 `prefix_of` v.
Proof.
  intros (x & y & H). apply app_eq_inv in H as [(k & -> & H) | (k & -> & ->)].
  - apply app_eq_inv in H as [(k2 & -> & ->) | (k2 & -> & ->)].
    + destruct k as [|c k].
      * right. left. by exists [], y.
      * destruct k2 as [|c2 k2].
        -- left. exists x, []. by rewrite !app_nil_r.
        -- right. right. exists (c :: k), (c2 :: k2).
           split_and!; try done; [by exists x | by exists y].
    + left. by exists x, k2.
  - right. left. by exists k, y.
Qed.

Lemma occurs_elem p u c : occurs p u -> c ∈ p -> c ∈ u.
Proof.
  intros (x & y & ->) Hc. rewrite !elem_of_app. auto.
Qed.

Lemma occurs_length p u : occurs p u -> length p <= length u.
Proof. intros (x & y & ->). rewrite !length_app. lia. Qed.

Lemma occurs_prefix p q u : p `prefix_of` q -> occurs q u -> occurs p u.
Proof.
  intros [k ->] (x & y & ->). exists x, (k ++ y). by rewrite <- !app_assoc.
Qed.

Lemma borderless_unbordered p : borderless p = true -> unbordered p.
Proof.
  intros Hp a b c Hab Hbc.
  destruct a as [|a0 a]; [by left|]. right.
  destruct b as [|b0 b]; [done|]. exfalso.
  unfold borderless in Hp. rewrite forallb_forall in Hp.
  specialize (Hp (length (b0 :: b))).
  assert (length p = length (a0 :: a) + length (b0 :: b)) as Hlen
    by (by rewrite Hab, length_app).
  apply bool_decide_eq_true in Hp.
  - apply Hp. rewrite Hlen, Nat.add_sub.
    rewrite Hab at 1. rewrite drop_app_length.
    rewrite Hbc. by rewrite take_app_length.
  - apply in_seq. cbn in *. lia.
Qed.

(** With a text that has no border, "is not in [g]" gives "starts
    nowhere in [g]" when nothing or that text follows. *)
Lemma no_start_before p g rest :
  unbordered p -> ~ occurs p g -> rest = [] \/ p `prefix_of` rest ->
  no_start p g rest.
Proof.
  intros Hub Hno [-> | [k ->]].
  - by apply no_start_absent.
  - by apply no_start_unbordered.
Qed.

(** If [q] starts nowhere in [g] then neither does a text that begins
    with [q]. *)
Lemma no_start_longer p q g rest :
  q `prefix_of` p -> no_start q g rest -> no_start p g rest.
Proof.
  intros Hqp Hno a b Hab Hb Hp. apply (Hno a b Hab Hb). by etrans.
Qed.

(** *** [str.replace] *)

Lemma replace_nil old new : old <> [] -> replace old new [] = [].
Proof. destruct old; [done|]. intros _. cbn. by simp replace_from. Qed.

Lemma replace_hit old new rest :
  old <> [] -> replace old new (old ++ rest) = new ++ replace old new rest.
Proof.
  destruct old as [|o old']; [done|]. intros _. cbn.
  rewrite replace_from_equation_2.
  change (o :: old' ++ rest) with ((o :: old') ++ rest) at 1.
  by rewrite startswith_app, drop_app_length.
Qed.

Lemma replace_miss old new c s :
  old <> [] -> ~ old `prefix_of` (c :: s) ->
  replace old new (c :: s) = c :: replace old new s.
Proof.
  destruct old as [|o old']; [done|]. intros _ Hno. cbn.
  rewrite replace_from_equation_2. apply startswith_false in Hno.
  by rewrite Hno.
Qed.

Lemma replace_skip old new g rest :
  old <> [] -> no_start old g rest ->
  replace old new (g ++ rest) = g ++ replace old new rest.
Proof.
  intros Hne. induction g as [|c g IH]; intros Hno; [done|].
  cbn. rewrite replace_miss; [|done|].
  - f_equal. apply IH. intros a b -> Hb. by apply (Hno (c :: a) b).
  - by apply (Hno [] (c :: g)).
Qed.

Lemma replace_absent old new s :
  old <> [] -> ~ occurs old s -> replace old new s = s.
Proof.
  intros Hne Hno. rewrite <- (app_nil_r s) at 1.
  rewrite replace_skip, replace_nil, app_nil_r; auto using no_start_absent.
Qed.

(** [old.join(gaps).replace(old, new)] is [new.join(gaps)] when [old]
    occurs in no gap: every occurrence is replaced. *)
Lemma replace_join old new gaps :
  old <> [] -> unbordered old ->
  (forall g, g ∈ gaps -> ~ occurs old g) ->
  replace old new (join old gaps) = join new gaps.
Proof.
  intros Hne Hub. induction gaps as [|g gaps IH]; intros Hno.
  - by apply replace_nil.
  - destruct gaps as [|g' gaps].
    + cbn. apply replace_absent; [done|]. apply Hno. by left.
    + rewrite !join_cons by done.
      rewrite replace_skip, replace_hit, IH; try done.
      * intros x Hx. apply Hno. by right.
      * apply no_start_unbordered; [done|]. apply Hno. by left.
Qed.

End PyFacts.
(** ** Facts about the regular expression *)

Module ReFacts.
Import Py Re PyFacts.

Lemma lazy_group_Some s g :
  lazy_group s = Some g ->
  exists r, s = g ++ closer ++ r /\ no_start closer g (closer ++ r).
Proof.
  revert g. induction s as [|c s IH]; intros g; calc.
  - destruct (startswith closer []) eqn:E; [|done].
    apply startswith_prefix in E as [r E]. done.
  - destruct (startswith closer (c :: s)) eqn:E.
    + intros [= <-]. apply startswith_prefix in E as [r ->].
      exists r. split; [done|]. intros a b Hab. by destruct a, b.
    + destruct (lazy_group s) as [g'|]; [|done]. calc. intros [= <-].
      destruct (IH g' eq_refl) as (r & -> & Hno). exists r. split; [done|].
      intros [|x a] b Hab Hb.
      * cbn in Hab. subst b. by apply startswith_false in E.
      * injection Hab as -> ->. by apply (Hno a b).
Qed.

Lemma lazy_group_first g r :
  no_start closer g (closer ++ r) -> lazy_group (g ++ closer ++ r) = Some g.
Proof.
  induction g as [|c g IH]; intros Hno.
  - cbn [app]. destruct (closer ++ r) eqn:E; [done|]. rewrite <- E.
    unfold lazy_group. rewrite E. rewrite <- E at 1. by rewrite startswith_app.
  - calc. destruct (startswith closer (c :: g ++ closer ++ r)) eqn:E.
    + apply startswith_prefix in E. by destruct (Hno [] (c :: g)).
    + rewrite IH; [done|]. intros a b -> Hb. by apply (Hno (c :: a) b).
Qed.

Lemma match_here_Some s m :
  match_here s = Some m ->
  exists g r, s = m ++ r /\ m = header ++ g ++ closer /\
              no_start closer g (closer ++ r).
Proof.
  unfold match_here. destruct (startswith header s) eqn:E; [|done].
  apply startswith_prefix in E as [k ->]. rewrite drop_app_length.
  destruct (lazy_group k) as [g|] eqn:Hg; [|done]. calc. intros Hm.
  assert (m = header ++ g ++ closer) as -> by congruence.
  apply lazy_group_Some in Hg as (r & -> & Hno). exists g, r.
  by rewrite <- !app_assoc.
Qed.

Lemma match_here_first g r :
  no_start closer g (closer ++ r) ->
  match_here (header ++ g ++ closer ++ r) = Some (header ++ g ++ closer).
Proof.
  intros Hno. unfold match_here.
  by rewrite startswith_app, drop_app_length, lazy_group_first.
Qed.

Lemma match_here_None s : ~ header `prefix_of` s -> match_here s = None.
Proof. intros H%startswith_false. unfold match_here. by rewrite H. Qed.

Lemma finditer_hit m rest :
  match_here (m ++ rest) = Some m -> finditer (m ++ rest) = m :: finditer rest.
Proof.
  intros Hm. destruct m as [|c m].
  { apply match_here_Some in Hm as (g & r & _ & Hm & _). done. }
  cbn [app] in *. simp finditer. rewrite Hm. calc.
  by rewrite Nat.sub_0_r, drop_app_length.
Qed.

Lemma finditer_miss c s :
  match_here (c :: s) = None -> finditer (c :: s) = finditer s.
Proof. intros Hm. simp finditer. by rewrite Hm. Qed.

(** The scan steps over a stretch in which no match starts. *)
Lemma finditer_skip g rest :
  (forall a b, g = a ++ b -> b <> [] -> match_here (b ++ rest) = None) ->
  finditer (g ++ rest) = finditer rest.
Proof.
  induction g as [|c g IH]; intros Hno; [done|].
  calc. rewrite finditer_miss.
  - apply IH. intros a b -> Hb. by apply (Hno (c :: a) b).
  - by apply (Hno [] (c :: g)).
Qed.

(** Induction along the scan of [finditer]. *)
Lemma finditer_ind (P : text -> list text -> Prop) :
  P [] [] ->
  (forall m rest, match_here (m ++ rest) = Some m ->
     P rest (finditer rest) -> P (m ++ rest) (m :: finditer rest)) ->
  (forall c s, match_here (c :: s) = None ->
     P s (finditer s) -> P (c :: s) (finditer s)) ->
  forall s, P s (finditer s).
Proof.
  intros Hnil Hhit Hmiss s.
  remember (length s) as n eqn:Hn. revert s Hn.
  induction n as [n IH] using lt_wf_ind. intros [|c s] Hn.
  - by simp finditer.
  - destruct (match_here (c :: s)) as [m|] eqn:Hm.
    + pose proof Hm as (g & r & Hs & Hshape & _)%match_here_Some.
      rewrite Hs in Hm |- *. rewrite (finditer_hit _ _ Hm).
      apply Hhit; [done|]. apply (IH (length r)); [|done].
      rewrite Hn, Hs, Hshape, !length_app.
      change (length header) with 31. lia.
    + rewrite (finditer_miss _ _ Hm). apply Hmiss; [done|].
      apply (IH (length s)); [subst n; cbn; lia | done].
Qed.

(** Every match is the header, a body and the closer, and the closer
    starts nowhere in the body. *)
Lemma finditer_shape s x :
  x ∈ finditer s ->
  exists g r, x = header ++ g ++ closer /\ no_start closer g (closer ++ r).
Proof.
  revert x. apply (finditer_ind (fun s l => forall x, x ∈ l -> _)).
  - intros x Hx. by apply elem_of_nil in Hx.
  - intros m rest Hm IH x [-> | Hx]%elem_of_cons; [|by apply IH].
    apply match_here_Some in Hm as (g & r & _ & -> & Hno). by exists g, r.
  - intros c s' _ IH x Hx. by apply IH.
Qed.

Lemma not_in_chars (c : N) (l : text) :
  forallb (fun x => negb (eqc x c)) l = true -> c ∉ l.
Proof.
  intros H Hin. rewrite forallb_forall in H.
  apply list_elem_of_In, H in Hin. by rewrite eqc_refl in Hin.
Qed.

(** The closer occurs in [g ++ closer] at the end only. *)
Lemma closer_last g r x y :
  no_start closer g (closer ++ r) -> g ++ closer = x ++ closer ++ y -> y = [].
Proof.
  intros Hno H. apply app_eq_inv in H as [(k & -> & H) | (k & -> & H)].
  - destruct k as [|c k].
    + rewrite app_nil_l in H. apply (f_equal length) in H.
      rewrite length_app in H. destruct y; [done | cbn in H; lia].
    + exfalso. apply (Hno x (c :: k) eq_refl); [done|].
      exists (y ++ r). rewrite (app_assoc (c :: k)), <- H.
      by rewrite <- !app_assoc.
  - apply (f_equal length) in H. rewrite !length_app in H.
    destruct y; [done | cbn in H; lia].
Qed.

(** A section cannot overlap a copy of itself. *)
Lemma section_unbordered g r :
  no_start closer g (closer ++ r) -> unbordered (header ++ g ++ closer).
Proof.
  intros Hno a b c Hab Hbc.
  destruct a as [|a0 a]; [by left|]. right.
  destruct b as [|b0 b _] using rev_ind; [done|]. exfalso.
  assert (c <> []) as Hc.
  { intros ->. rewrite app_nil_r in Hbc. rewrite Hbc in Hab.
    apply (f_equal length) in Hab. rewrite !length_app in Hab. cbn in Hab. lia. }
  destruct b as [|b1 b _] using rev_ind.
  - (* one character: the last of the section and its first *)
    rewrite app_nil_l in Hab, Hbc.
    assert (header ++ g ++ closer =
            (header ++ g ++ [(ord "}")]) ++ [(ord ";")])
      as Hs by (by rewrite <- !app_assoc).
    rewrite Hs in Hab. apply app_inj_tail in Hab as [_ <-].
    unfold header in Hbc. cbn in Hbc. discriminate.
  - (* the overlap ends with the closer, which then occurs too early *)
    assert (b0 = (ord ";") /\ b1 = (ord "}")) as [-> ->].
    { change closer with ([(ord "}")] ++ [(ord ";")]) in Hab.
      rewrite !app_assoc in Hab. apply app_inj_tail in Hab as [Hab ->].
      by apply app_inj_tail in Hab as [_ ->]. }
    rewrite <- !app_assoc in Hbc. change ([(ord "}")] ++ [(ord ";")] ++ c)
      with (closer ++ c) in Hbc.
    apply app_eq_inv in Hbc as [(k & Hh & Hk) | (k & -> & Hk)].
    + destruct k as [|k0 k].
      * rewrite app_nil_l in Hk. destruct g as [|g0 g].
        -- cbn in Hk. rewrite <- (app_nil_r closer) in Hk at 2.
           by apply app_inv_head in Hk.
        -- apply (Hno [] (g0 :: g) eq_refl); [done|].
           exists (c ++ r). rewrite (app_assoc closer c r), Hk.
           by rewrite <- !app_assoc.
      * injection Hk as Hk0 _. subst k0.
        assert ((ord "}") ∉ header) as Hnot by (by apply not_in_chars).
        apply Hnot. rewrite Hh. apply elem_of_app. right. by left.
    + by apply (closer_last _ _ _ _ Hno) in Hk.
Qed.

Lemma finditer_unbordered s x : x ∈ finditer s -> unbordered x.
Proof.
  intros (g & r & -> & Hno)%finditer_shape. by apply (section_unbordered g r).
Qed.

Lemma finditer_nonempty s x : x ∈ finditer s -> x <> [].
Proof. by intros (g & r & -> & _)%finditer_shape. Qed.

End ReFacts.
(** ** Facts about sections *)

Module SectionFacts.
Import Py Re PyFacts ReFacts.

Lemma header_unbordered : unbordered header.
Proof. apply borderless_unbordered. by vm_compute. Qed.

Lemma closer_unbordered : unbordered closer.
Proof. apply borderless_unbordered. by vm_compute. Qed.

Lemma header_prefix_section b : header `prefix_of` section_of b.
Proof. by exists (b ++ closer). Qed.

Lemma section_of_inj b1 b2 : section_of b1 = section_of b2 -> b1 = b2.
Proof.
  unfold section_of. intros H%app_inv_head. by apply app_inv_tail in H.
Qed.

Lemma section_of_nonempty b : section_of b <> [].
Proof. done. Qed.

Lemma closer_starts b r : ~ occurs closer b -> no_start closer b (closer ++ r).
Proof. apply no_start_unbordered, closer_unbordered. Qed.

(** The closer is not in the body of a match. *)
Lemma no_start_not_in g r : no_start closer g (closer ++ r) -> ~ occurs closer g.
Proof.
  intros Hno (a & b & ->). apply (Hno a (closer ++ b) eq_refl); [done|].
  exists (b ++ closer ++ r). by rewrite <- !app_assoc.
Qed.

(** Every match is a section whose body does not hold the closer. *)
Lemma finditer_section s x :
  x ∈ finditer s -> exists b, x = section_of b /\ ~ occurs closer b.
Proof.
  intros (g & r & -> & Hno)%finditer_shape. exists g. split; [done|].
  by apply (no_start_not_in g r).
Qed.

Lemma section_unbordered' b : ~ occurs closer b -> unbordered (section_of b).
Proof. intros Hb. apply (section_unbordered b []). by apply closer_starts. Qed.

Lemma closer_not_in_header c : c ∈ closer -> c ∉ header.
Proof.
  intros [-> | [-> | H]%elem_of_cons]%elem_of_cons;
    [by apply not_in_chars..| by apply elem_of_nil in H].
Qed.

Lemma header_not_in_closer c : c ∈ header -> c ∉ closer.
Proof. intros Hh Hc. by apply (closer_not_in_header c). Qed.

Lemma suffix_closer_last p1 : p1 <> [] -> p1 `suffix_of` closer -> ord ";" ∈ p1.
Proof.
  intros Hne [k Hk]. destruct p1 as [|c q _] using rev_ind; [done|].
  change closer with ([ord "}"] ++ [ord ";"]) in Hk.
  rewrite !app_assoc in Hk. apply app_inj_tail in Hk as [_ <-].
  apply elem_of_app. right. by left.
Qed.

Lemma prefix_closer_first p2 t :
  p2 <> [] -> p2 `prefix_of` closer ++ t -> ord "}" ∈ p2.
Proof.
  intros Hne [k Hk]. destruct p2 as [|c q]; [done|].
  injection Hk as <- _. by left.
Qed.

Lemma prefix_header_first p2 t :
  p2 <> [] -> p2 `prefix_of` header ++ t -> ord "/" ∈ p2.
Proof.
  intros Hne [k Hk]. destruct p2 as [|c q]; [done|].
  injection Hk as <- _. by left.
Qed.

Lemma suffix_header_last p1 : p1 <> [] -> p1 `suffix_of` header -> ord "{" ∈ p1.
Proof.
  intros Hne [k Hk]. destruct p1 as [|c q _] using rev_ind; [done|].
  change header with
    (txt "/* Copy Bundle Resources */ = " ++ [ord "{"]) in Hk.
  rewrite !app_assoc in Hk. apply app_inj_tail in Hk as [_ <-].
  apply elem_of_app. right. by left.
Qed.

Lemma closer_not_in_header_text : ~ occurs closer header.
Proof. apply contains_false. by vm_compute. Qed.

(** The closer of [g ++ closer] is its only one when [g] holds none. *)
Lemma closer_only_last g x y :
  ~ occurs closer g -> g ++ closer = x ++ closer ++ y -> y = [].
Proof. intros Hg. apply (closer_last g []). by apply closer_starts. Qed.

(** Where the header starts in a text that begins with the header: at
    the beginning, or after that first header. *)
Lemma header_at u a v :
  header ++ u = a ++ header ++ v ->
  a = [] /\ u = v \/ exists j, a = header ++ j /\ u = j ++ header ++ v.
Proof.
  intros H. apply app_eq_inv in H as [(j & Hh & Hj) | (j & -> & ->)].
  - (* [header = a ++ j] and [header ++ v = j ++ u] *)
    apply app_eq_inv in Hj as [(i & Hi & Hu) | (i & Hi & Hu)].
    + destruct (header_unbordered a j i Hh Hi) as [-> | ->].
      * left. split; [done|]. rewrite app_nil_l in Hh. subst j.
        apply (f_equal length) in Hi. rewrite length_app in Hi.
        destruct i; [by rewrite app_nil_l in Hu | cbn in Hi; lia].
      * right. exists []. rewrite app_nil_r in Hh. rewrite app_nil_l in Hi.
        subst a. subst i. by rewrite app_nil_r.
    + assert (a = [] /\ i = []) as [-> ->].
      { rewrite Hi in Hh. apply (f_equal length) in Hh.
        rewrite !length_app in Hh. destruct a, i; cbn in Hh; try done; lia. }
      left. by rewrite app_nil_l in Hu.
  - right. by exists j.
Qed.

(** Two bodies without the closer, with the header between them, hold
    no closer together. *)
Lemma closer_free_glue u v :
  ~ occurs closer u -> ~ occurs closer v -> ~ occurs closer (u ++ header ++ v).
Proof.
  intros Hu Hv
    [H | [H | (p1 & p2 & Hp & Hp1 & Hp2 & Hsuf & Hpre)]]%occurs_app_cases;
    [done|..].
  - apply occurs_app_cases in H
      as [H | [H | (p1 & p2 & Hp & Hp1 & Hp2 & Hsuf & Hpre)]]; [..|done|].
    + by apply closer_not_in_header_text.
    + apply (header_not_in_closer (ord "{")).
      * change header with (txt "/* Copy Bundle Resources */ = " ++ [ord "{"]).
        apply elem_of_app. right. by left.
      * rewrite Hp. apply elem_of_app. left. by apply suffix_header_last.
  - apply (header_not_in_closer (ord "/")); [by left|].
    rewrite Hp. apply elem_of_app. right. by eapply prefix_header_first.
Qed.

(** A stretch of a section from which another section starts is that
    other section: a section ends at the first closer after its
    header. *)
Lemma suffix_section g bs a b r :
  ~ occurs closer g -> ~ occurs closer bs ->
  section_of g = a ++ b -> b <> [] ->
  section_of bs `prefix_of` b ++ r -> b = section_of bs.
Proof.
  intros Hg Hbs Hy Hb [k Hk]. unfold section_of in *.
  apply app_eq_inv in Hk as [(k' & Hb' & Hr) | (k' & Hs & Hr)].
  - (* the other section ends inside [b] *)
    rewrite Hb' in Hy. rewrite <- !app_assoc in Hy.
    apply header_at in Hy as [[_ Hy] | (j & _ & Hy)].
    + apply closer_only_last in Hy; [|done]. subst k'. by rewrite app_nil_r in Hb'.
    + rewrite !(app_assoc j), !(app_assoc (j ++ header)) in Hy.
      apply closer_only_last in Hy; [|done]. subst k'. by rewrite app_nil_r in Hb'.
  - (* [b] ends inside the other section *)
    destruct k' as [|c0 k']; [by rewrite app_nil_r in Hs|]. exfalso.
    apply app_eq_inv in Hs as [(j & Hh & Hk) | (j & Hbj & Hk)].
    + destruct b as [|c b _] using rev_ind; [done|].
      change closer with ([ord "}"] ++ [ord ";"]) in Hy.
      rewrite !app_assoc in Hy. apply app_inj_tail in Hy as [_ Hc].
      apply (closer_not_in_header (ord ";")); [by right; left|].
      rewrite Hh, Hc. rewrite !elem_of_app. left. right. by left.
    + rewrite Hbj in Hy. rewrite !app_assoc in Hy.
      apply app_eq_inv in Hy as [(i & Hi & Hj) | (i & Hi & Hj)].
      * rewrite Hj in Hk. rewrite <- app_assoc in Hk.
        by apply closer_only_last in Hk.
      * destruct i as [|c i _] using rev_ind.
        -- rewrite app_nil_l in Hj. rewrite <- Hj in Hk.
           rewrite <- (app_nil_l (closer ++ c0 :: k')) in Hk.
           by apply closer_only_last in Hk.
        -- change header with (txt "/* Copy Bundle Resources */ = " ++ [ord "{"])
             in Hi.
           rewrite !app_assoc in Hi. apply app_inj_tail in Hi as [_ Hc].
           apply (header_not_in_closer (ord "{")).
           ++ change header with (txt "/* Copy Bundle Resources */ = " ++ [ord "{"]).
              apply elem_of_app. right. by left.
           ++ rewrite Hj, <- Hc. rewrite !elem_of_app. left. right. by left.
Qed.

(** The lines of a tidy section: those before the hit (at least one),
    the hit, and those after it (at least one). *)
Lemma tidy_lines s :
  tidy s ->
  exists l1 prev line l2,
    split LF s = l1 ++ prev :: line :: l2 /\ l2 <> [] /\
    first_hit (split LF s) = Some (S (length l1), line) /\
    (forall l, l ∈ l1 ++ [prev] -> ~ occurs plist l) /\
    (forall l, l ∈ l2 -> ~ occurs plist l).
Proof.
  intros (i & line & Hhit & Hpos & Hlast & Hlater).
  destruct i as [|j]; [lia|].
  pose proof Hhit as (Hi & _ & Hfirst)%list_find_Some.
  destruct (lookup_lt_is_Some_2 (split LF s) j) as [prev Hprev];
    [apply lookup_lt_Some in Hi; lia|].
  apply list_elem_of_split_length in Hprev as (l1 & r & Hsplit & ->).
  rewrite Hsplit in Hi, Hlast, Hfirst, Hlater.
  rewrite (lookup_app_r l1) in Hi by lia.
  replace (S (length l1) - length l1) with 1 in Hi by lia.
  destruct r as [|line' l2]; [done|]. cbn in Hi. injection Hi as ->.
  exists l1, prev, line, l2. split_and!; try done.
  - intros ->. rewrite length_app in Hlast. cbn in Hlast. lia.
  - intros l Hl Hocc. apply list_elem_of_lookup in Hl as [k Hk].
    apply (Hfirst k l).
    + rewrite (cons_middle prev), app_assoc. by apply lookup_app_l_Some.
    + apply lookup_lt_Some in Hk. rewrite length_app in Hk. cbn in Hk. lia.
    + by apply contains_occurs.
  - intros l Hl Hocc. apply list_elem_of_lookup in Hl as [k Hk].
    apply contains_occurs in Hocc.
    rewrite (Hlater (S (S (length l1)) + k) l) in Hocc; [done | lia |].
    rewrite (cons_middle prev), (cons_middle line), !app_assoc.
    rewrite lookup_app_r by (rewrite !length_app; cbn; lia).
    rewrite <- Hk. f_equal. rewrite !length_app. cbn. lia.
Qed.

Lemma LF_not_in_header : LF ∉ header.
Proof. by apply not_in_chars. Qed.

Lemma LF_not_in_closer : LF ∉ closer.
Proof. by apply not_in_chars. Qed.

Lemma comma_not_in_header : ord "," ∉ header.
Proof. by apply not_in_chars. Qed.

(** The text put in place of a tidy section is again a section; its
    body does not hold the closer, and the plist is gone from it. *)
Lemma tidy_patch b :
  ~ occurs closer b -> tidy (section_of b) ->
  exists b',
    modified_section (section_of b) = Some (section_of b') /\
    ~ occurs closer b' /\
    contains plist (section_of b') = false.
Proof.
  intros Hcb Htidy.
  destruct (tidy_lines _ Htidy)
    as (l1 & prev & line & l2 & Hsplit & Hl2 & Hhit & Hbefore & Hafter).
  pose proof (modified_section_first_hit (section_of b)) as Hm.
  rewrite Hhit in Hm. cbn [fmap option_fmap option_map fst] in Hm.
  rewrite Hsplit, drop_entry_middle in Hm.
  pose proof (join_split LF (section_of b)) as Hs. rewrite Hsplit in Hs.
  destruct (comma_edit_split prev) as (k & Hprev & Hk).
  set (prev' := if endswith (txt ",") (strip prev)
                then rstrip (txt ",") prev else prev) in *.
  clearbody prev'. subst prev. clear Hsplit Hhit Htidy.
  (* the section and its replacement, cut at the removed line *)
  rewrite (cons_middle (prev' ++ k)), app_assoc in Hs.
  rewrite join_app, join_snoc_app, join_cons in Hs by (done || by destruct l1).
  rewrite (cons_middle prev'), app_assoc in Hm.
  rewrite join_app in Hm by (done || by destruct l1).
  assert (forall l, l ∈ l1 ++ prev' :: l2 -> ~ occurs plist l) as Hkept.
  { intros l [Hl | [-> | Hl]%elem_of_cons]%elem_of_app.
    - apply Hbefore. apply elem_of_app. by left.
    - intros H. apply (Hbefore (prev' ++ k)).
      + apply elem_of_app. right. by left.
      + by apply occurs_app_l.
    - by apply Hafter. }
  assert (~ occurs plist (join [LF] (l1 ++ [prev']) ++ [LF] ++ join [LF] l2))
    as Hgone.
  { rewrite <- join_app by (done || by destruct l1).
    rewrite <- app_assoc. cbn [app].
    intros (l & Hl & Hocc)%(occurs_join _ _ _ plist_nonempty LF_not_in_plist).
    by apply (Hkept l). }
  clear Hbefore Hafter Hkept.
  set (A := join [LF] (l1 ++ [prev'])) in *. set (B := join [LF] l2) in *.
  clearbody A B. clear l1 l2 prev' Hl2.
  (* the header lies in [A] *)
  unfold section_of in Hs. rewrite <- (app_assoc A) in Hs.
  assert (exists x, A = header ++ x /\
            b ++ closer = x ++ k ++ [LF] ++ line ++ [LF] ++ B) as (x & -> & Hb).
  { apply app_eq_inv in Hs as [(x & Hx & Hx') | (x & Hx & Hx')]; [by exists x|].
    destruct x as [|c x].
    - exists []. rewrite app_nil_r in *. by rewrite app_nil_l in Hx'.
    - exfalso. assert (c ∈ header) as Hc
        by (rewrite Hx; apply elem_of_app; right; by left).
      destruct k as [|c' k].
      + injection Hx' as <- _. by apply LF_not_in_header.
      + injection Hx' as <- _. apply Forall_inv in Hk. subst c'.
        by apply comma_not_in_header. }
  clear Hs.
  (* the closer lies in [B] *)
  assert (exists y, B = y ++ closer /\
            b = x ++ k ++ [LF] ++ line ++ [LF] ++ y) as (y & -> & ->).
  { rewrite !(app_assoc _ _ B) in Hb.
    apply app_eq_inv in Hb as [(y & -> & ->) | (y & Hy & Hy')].
    - exists y. by rewrite <- !app_assoc.
    - destruct y as [|c y _] using rev_ind.
      + exists []. rewrite app_nil_r in Hy. rewrite app_nil_l in Hy'.
        rewrite app_nil_r, app_nil_l. by split.
      + exfalso. rewrite !app_assoc in Hy. apply app_inj_tail in Hy as [_ <-].
        apply LF_not_in_closer. rewrite Hy'.
        rewrite !elem_of_app. left. right. by left. }
  exists (x ++ [LF] ++ y). split_and!.
  - rewrite Hm. unfold section_of. by rewrite <- !app_assoc.
  - intros [H | H]%(occurs_around _ LF); [..|apply LF_not_in_closer].
    + apply Hcb. by apply occurs_app_l.
    + apply Hcb. rewrite !app_assoc. by apply occurs_app_r.
  - apply contains_false. unfold section_of.
    by rewrite <- !app_assoc in Hgone |- *.
Qed.

Lemma tidyb_tidy s : tidyb s = true -> tidy s.
Proof.
  unfold tidyb, tidy.
  destruct (first_hit (split LF s)) as [[i line]|]; [|done].
  rewrite !andb_true_iff, Nat.ltb_lt, Nat.ltb_lt, forallb_forall.
  intros [[Hpos Hlast] Hlater]. exists i, line. split_and!; try done.
  intros j l Hj Hl. apply negb_true_iff, Hlater, list_elem_of_In.
  apply list_elem_of_lookup. exists (j - S i). rewrite lookup_drop.
  rewrite <- Hl. f_equal. lia.
Qed.

End SectionFacts.
(** ** Facts about what the edit takes away *)

Module EditFacts.
Import Py Re PyFacts ReFacts SectionFacts.

Lemma rstrip_by_sublist f s : rstrip_by f s `sublist_of` s.
Proof.
  destruct (rstrip_by_split f s) as (t & Hs & _). rewrite Hs at 2.
  by apply sublist_inserts_r.
Qed.

Lemma comma_edit_sublist prev :
  (if endswith (txt ",") (strip prev) then rstrip (txt ",") prev else prev)
  `sublist_of` prev.
Proof. destruct (endswith _ _); [apply rstrip_by_sublist | done]. Qed.

(** Joining without one of the parts gives a sublist, shorter by that
    part at least. *)
Lemma join_without sep l1 x l2 :
  join sep (l1 ++ l2) `sublist_of` join sep (l1 ++ x :: l2) /\
  length (join sep (l1 ++ l2)) + length x <= length (join sep (l1 ++ x :: l2)).
Proof.
  induction l1 as [|y l1 [IH IHlen]].
  - cbn [app]. destruct l2 as [|z l2].
    + cbn. split; [apply sublist_nil_l | lia].
    + rewrite (join_cons sep x) by done. split.
      * by apply sublist_inserts_l, sublist_inserts_l.
      * rewrite !length_app. lia.
  - cbn [app]. rewrite (join_cons sep y (l1 ++ x :: l2)) by (by destruct l1).
    destruct (l1 ++ l2) as [|z l] eqn:E.
    + cbn. split.
      * by apply sublist_inserts_r.
      * apply app_eq_nil in E as [-> ->]. cbn. rewrite !length_app. lia.
    + rewrite (join_cons sep y (z :: l)) by done. split.
      * by repeat apply sublist_app.
      * rewrite !length_app in *. lia.
Qed.

Lemma join_shrink sep l1 x' x l2 :
  x' `sublist_of` x ->
  join sep (l1 ++ x' :: l2) `sublist_of` join sep (l1 ++ x :: l2).
Proof.
  intros Hx. induction l1 as [|y l1 IH].
  - cbn [app]. destruct l2 as [|z l2]; [done|].
    rewrite !(join_cons sep _ (z :: l2)) by done. by apply sublist_app.
  - cbn [app]. rewrite !(join_cons sep y) by (by destruct l1).
    by repeat apply sublist_app.
Qed.

(** The text put in place of a section is a sublist of the section, and
    shorter by the length of the plist's name at least. *)
Lemma modified_section_smaller s m :
  modified_section s = Some m ->
  m `sublist_of` s /\ length m + length plist <= length s.
Proof.
  rewrite modified_section_first_hit.
  destruct (first_hit (split LF s)) as [[i line]|] eqn:Hhit; [|done].
  cbn [fmap option_fmap option_map fst]. intros [= <-].
  pose proof Hhit as (Hi & Hline & _)%list_find_Some.
  apply contains_occurs, occurs_length in Hline.
  rewrite <- (join_split LF s) at 2 4.
  destruct i as [|j].
  - rewrite drop_entry_0. destruct (split LF s) as [|l0 ls]; [done|].
    injection Hi as ->. cbn [drop]. rewrite drop_0.
    destruct (join_without [LF] [] line ls) as [Hsub Hlen]. cbn [app] in *.
    split; [done | lia].
  - destruct (lookup_lt_is_Some_2 (split LF s) j) as [prev Hprev];
      [apply lookup_lt_Some in Hi; lia|].
    apply list_elem_of_split_length in Hprev as (l1 & r & Hsplit & ->).
    rewrite Hsplit in Hi |- *. rewrite (lookup_app_r l1) in Hi by lia.
    replace (S (length l1) - length l1) with 1 in Hi by lia.
    destruct r as [|line' l2]; [done|]. cbn in Hi. injection Hi as ->.
    rewrite drop_entry_middle.
    pose proof (join_shrink [LF] l1 _ prev l2 (comma_edit_sublist prev)) as Hshrink.
    destruct (join_without [LF] (l1 ++ [prev]) line l2) as [Hsub Hlen].
    rewrite <- !app_assoc in Hsub, Hlen. cbn [app] in Hsub, Hlen. split.
    + by etrans.
    + apply sublist_length in Hshrink. lia.
Qed.

(** [t.replace(old, new)] with [new] a sublist of [old] is a sublist of
    [t], and shorter where [old] occurs. *)
Lemma replace_smaller old new t :
  old <> [] -> new `sublist_of` old ->
  replace old new t `sublist_of` t /\
  (occurs old t ->
   length (replace old new t) + (length old - length new) <= length t).
Proof.
  intros Hne Hnew. pose proof (sublist_length _ _ Hnew) as Hlen.
  remember (length t) as n eqn:Hn. revert t Hn.
  induction n as [n IH] using lt_wf_ind. intros [|c t] Hn.
  - rewrite replace_nil by done. split; [done|].
    intros (a & b & H). symmetry in H. apply app_eq_nil in H as [_ H].
    by apply app_eq_nil in H as [-> _].
  - destruct (startswith old (c :: t)) eqn:E.
    + apply startswith_prefix in E as [r Hr]. rewrite Hr.
      rewrite replace_hit by done.
      destruct (IH (length r)) with (t := r) as [Hsub _]; [|done|].
      { rewrite Hn, Hr, length_app. destruct old; [done | cbn; lia]. }
      split; [by apply sublist_app|]. intros _.
      apply sublist_length in Hsub. rewrite Hn, Hr, !length_app. lia.
    + apply startswith_false in E. rewrite replace_miss by done.
      destruct (IH (length t)) with (t := t) as [Hsub Hshort];
        [rewrite Hn; cbn; lia | done |].
      split; [by apply sublist_skip|]. intros ([|c' a] & b & H).
      * destruct E. by exists b.
      * injection H as _ Ht.
        assert (occurs old t) as Hocc by (by exists a, b).
        specialize (Hshort Hocc). rewrite Hn. cbn [length]. lia.
Qed.

(** Every match is a stretch of the scanned text. *)
Lemma finditer_occurs s x : x ∈ finditer s -> occurs x s.
Proof.
  revert x. apply (finditer_ind (fun s l => forall x, x ∈ l -> occurs x s)).
  - intros x Hx. by apply elem_of_nil in Hx.
  - intros m rest _ IH x [-> | Hx]%elem_of_cons.
    + exists [], rest. done.
    + by apply occurs_app_r, IH.
  - intros c s' _ IH x Hx. by apply (occurs_app_r _ [c]), IH.
Qed.

Lemma lazy_group_found s : occurs closer s -> is_Some (lazy_group s).
Proof.
  induction s as [|c s IH]; intros (a & b & H); cbn.
  - symmetry in H. apply app_eq_nil in H as [_ H]. by destruct closer.
  - destruct (startswith closer (c :: s)) eqn:E; [by eexists|].
    destruct a as [|c' a].
    + apply startswith_false in E. destruct E. by exists b.
    + injection H as _ ->. destruct IH as [g ->]; [by exists a, b|].
      by eexists.
Qed.

Lemma finditer_nil_no_match s a b :
  finditer s = [] -> s = a ++ b -> b <> [] -> match_here b = None.
Proof.
  revert s. induction a as [|c a IH]; intros s Hnil -> Hb.
  - destruct b as [|c b]; [done|]. cbn [app] in Hnil.
    destruct (match_here (c :: b)) as [m|] eqn:Hm; [|done].
    pose proof Hm as (g & r & Hs & _)%match_here_Some.
    rewrite Hs in Hm, Hnil. by rewrite (finditer_hit _ _ Hm) in Hnil.
  - cbn [app] in Hnil.
    destruct (match_here (c :: a ++ b)) as [m|] eqn:Hm.
    + pose proof Hm as (g & r & Hs & _)%match_here_Some.
      rewrite Hs in Hm, Hnil. by rewrite (finditer_hit _ _ Hm) in Hnil.
    + rewrite (finditer_miss _ _ Hm) in Hnil. by apply (IH (a ++ b)).
Qed.

(** What a text-mode read delivers holds no carriage return. *)
Lemma universal_newlines_no_CR raw : CR ∉ universal_newlines raw.
Proof.
  remember (length raw) as n eqn:Hn. revert raw Hn.
  induction n as [n IH] using lt_wf_ind. intros [|c raw] Hn.
  - apply not_elem_of_nil.
  - cbn. destruct (eqc c CR) eqn:E.
    + destruct raw as [|c' raw].
      * apply not_elem_of_cons. split; [done | apply not_elem_of_nil].
      * destruct (eqc c' LF).
        -- apply not_elem_of_cons. split; [done|].
           apply (IH (length raw)); [rewrite Hn; cbn; lia | done].
        -- apply not_elem_of_cons. split; [done|].
           apply (IH (length (c' :: raw))); [rewrite Hn; cbn; lia | done].
    + apply not_elem_of_cons. split.
      * apply eqc_neq in E. congruence.
      * apply (IH (length raw)); [rewrite Hn; cbn; lia | done].
Qed.

Lemma universal_newlines_fixed t : CR ∉ t -> universal_newlines t = t.
Proof.
  induction t as [|c t IH]; [done|]. intros [Hc Ht]%not_elem_of_cons.
  cbn. destruct (eqc c CR) eqn:E; [by apply eqc_eq in E|].
  by rewrite IH.
Qed.

Lemma split_single sep s : sep ∉ s -> split sep s = [s].
Proof.
  induction s as [|c s IH]; [done|]. intros [Hc Hs]%not_elem_of_cons.
  cbn. destruct (eqc c sep) eqn:E; [by apply eqc_eq in E|].
  by rewrite IH.
Qed.

(** What a text-mode read delivers is made of the characters decoded
    and of line feeds. *)
Lemma universal_newlines_elem t c :
  c ∈ universal_newlines t -> c ∈ t \/ c = LF.
Proof.
  remember (length t) as n eqn:Hn. revert t Hn.
  induction n as [n IH] using lt_wf_ind. intros [|x t] Hn.
  - intros H. by apply elem_of_nil in H.
  - assert (forall u, length u < n ->
              c ∈ universal_newlines u -> c ∈ u \/ c = LF) as IH'
      by (intros u Hu; by apply (IH (length u))).
    assert (length t < n) as Ht by (rewrite Hn; cbn; lia).
    cbn. destruct (eqc x CR) eqn:E.
    + destruct t as [|x' t].
      * intros ->%list_elem_of_singleton. by right.
      * assert (length t < n) as Ht' by (cbn in Ht; lia).
        destruct (eqc x' LF).
        -- intros [-> | H]%elem_of_cons; [by right|].
           apply IH' in H as [H | H]; [left; by do 2 right | by right | done].
        -- intros [-> | H]%elem_of_cons; [by right|].
           apply IH' in H as [H | H]; [left; by right | by right | done].
    + intros [-> | H]%elem_of_cons; [left; by left|].
      apply IH' in H as [H | H]; [left; by right | by right | done].
Qed.

Lemma endswith_suffix p s : endswith p s = true <-> p `suffix_of` s.
Proof.
  unfold endswith. rewrite startswith_prefix. symmetry.
  apply suffix_prefix_reverse.
Qed.

(** The first place where a text occurs. *)
Lemma first_occurrence p t :
  occurs p t -> exists a r, t = a ++ p ++ r /\ no_start p a (p ++ r).
Proof.
  induction t as [|c t IH]; intros Hocc.
  - destruct Hocc as (a & b & H). symmetry in H.
    apply app_eq_nil in H as [-> H]. exists [], b. split; [done|].
    intros x y Hxy. by destruct x, y.
  - destruct (startswith p (c :: t)) eqn:E.
    + apply startswith_prefix in E as [r Hr]. exists [], r. split; [done|].
      intros x y Hxy. by destruct x, y.
    + apply startswith_false in E.
      destruct Hocc as ([|c' a] & b & H).
      { destruct E. exists b. done. }
      injection H as <- ->.
      destruct IH as (a' & r & Ht & Hno); [by exists a, b|].
      exists (c :: a'), r. split; [by rewrite Ht|].
      intros [|x u] y Hxy Hy.
      * cbn in Hxy. subst y. cbn [app]. by rewrite <- Ht.
      * injection Hxy as _ ->. by apply (Hno u y).
Qed.

Lemma no_start_free p a rest : p <> [] -> no_start p a (p ++ rest) -> ~ occurs p a.
Proof.
  intros Hp Hno (x & y & ->). apply (Hno x (p ++ y) eq_refl); [by destruct p|].
  exists (y ++ p ++ rest). by rewrite <- !app_assoc.
Qed.

(** Every text is its pieces between the occurrences of [p], taken
    from the left, joined by [p]. *)
Lemma split_by p t :
  p <> [] ->
  exists gaps,
    gaps <> [] /\ t = join p gaps /\ forall g, g ∈ gaps -> ~ occurs p g.
Proof.
  intros Hp. remember (length t) as n eqn:Hn. revert t Hn.
  induction n as [n IH] using lt_wf_ind. intros t Hn.
  destruct (contains p t) eqn:E.
  - apply contains_occurs, first_occurrence in E as (a & r & Ht & Hno).
    destruct (IH (length r)) with (t := r) as (gaps & Hne & Hr & Hgaps);
      [|done|].
    { rewrite Hn, Ht, !length_app. destruct p; [done | cbn; lia]. }
    exists (a :: gaps). split_and!; [done|..].
    + rewrite join_cons by done. by rewrite Ht, Hr.
    + intros g [-> | Hg]%elem_of_cons; [|by apply Hgaps].
      by apply (no_start_free p a r).
  - exists [t]. split_and!; [done..|]. intros g ->%list_elem_of_singleton.
    by apply contains_false.
Qed.

End EditFacts.
(** ** Facts about the rounds of the loop *)

Module RoundFacts.
Import Py Re PyFacts ReFacts SectionFacts EditFacts.

(** *** A global replacement under the regular expression *)

Lemma startswith_take p s : startswith p s = startswith p (take (length p) s).
Proof.
  revert s. induction p as [|a p IH]; intros [|b s]; cbn; try done.
  by rewrite <- IH.
Qed.

(** When [old] and [new] begin alike, the text begins after the
    replacement as it did before. *)
Lemma take_replace h old' new' n t :
  n <= length h -> take n (replace (h ++ old') (h ++ new') t) = take n t.
Proof.
  revert n. induction t as [|c t IH]; intros n Hn.
  - destruct n; [by rewrite !take_0|].
    rewrite replace_nil; [done|]. destruct h; [cbn in Hn; lia | done].
  - destruct n as [|n]; [done|].
    assert (h ++ old' <> []) as Hne by (destruct h; [cbn in Hn; lia | done]).
    destruct (startswith (h ++ old') (c :: t)) eqn:E.
    + apply startswith_prefix in E as [r ->]. rewrite replace_hit by done.
      rewrite <- !app_assoc. by rewrite !(take_app_le h) by done.
    + apply startswith_false in E. rewrite replace_miss by done.
      cbn [take]. f_equal. apply IH. lia.
Qed.

Lemma match_here_section b r :
  ~ occurs closer b -> match_here (section_of b ++ r) = Some (section_of b).
Proof.
  intros Hb. unfold section_of. rewrite <- !app_assoc.
  apply match_here_first. by apply closer_starts.
Qed.

(** In a match, the text of a section is replaced where the match ends
    with it, and nowhere else. *)
Lemma replace_in_match g bs new rest :
  ~ occurs closer g -> ~ occurs closer bs ->
  replace (section_of bs) new (section_of g ++ rest) =
  swap_end (section_of bs) new (section_of g) ++
  replace (section_of bs) new rest.
Proof.
  intros Hg Hbs. unfold swap_end.
  destruct (endswith (section_of bs) (section_of g)) eqn:E.
  - apply endswith_suffix in E as [Y HY]. rewrite HY.
    rewrite length_app, Nat.add_sub, take_app_length, <- !app_assoc.
    rewrite replace_skip, replace_hit; [done..|].
    intros a b -> Hb Hpre.
    assert (b ++ section_of bs = section_of bs) as Hbs'.
    { apply (suffix_section g bs a (b ++ section_of bs) rest); try done.
      - by rewrite HY, <- app_assoc.
      - by destruct b.
      - by rewrite <- app_assoc. }
    rewrite <- (app_nil_l (section_of bs)) in Hbs' at 2.
    by apply app_inv_tail in Hbs'.
  - rewrite replace_skip; [done..|].
    intros a b Hab Hb Hpre.
    apply (suffix_section g bs a b rest) in Hpre; try done.
    assert (endswith (section_of bs) (section_of g) = true) as E'
      by (apply endswith_suffix; exists a; by rewrite Hab, Hpre).
    by rewrite E in E'.
Qed.

(** What a match becomes is a section again. *)
Lemma swap_end_section g bs bs' :
  ~ occurs closer g -> ~ occurs closer bs' ->
  exists g',
    swap_end (section_of bs) (section_of bs') (section_of g) = section_of g' /\
    ~ occurs closer g'.
Proof.
  intros Hg Hbs'. unfold swap_end.
  destruct (endswith (section_of bs) (section_of g)) eqn:E; [|by exists g].
  apply endswith_suffix in E as [Y HY]. rewrite HY.
  rewrite length_app, Nat.add_sub, take_app_length.
  unfold section_of in HY. apply header_at in HY as [[-> _] | (j & -> & Hj)].
  - by exists bs'.
  - exists (j ++ header ++ bs'). split.
    + unfold section_of. by rewrite <- !app_assoc.
    + apply closer_free_glue; [|done]. intros Hocc. apply Hg.
      rewrite !app_assoc in Hj. apply app_inv_tail in Hj. rewrite Hj.
      rewrite <- !app_assoc. by apply occurs_app_l.
Qed.

(** Where no match starts, the section is not replaced and no match
    starts after the replacement either. *)
Lemma match_here_replace bs bs' c t :
  ~ occurs closer bs ->
  match_here (c :: t) = None ->
  replace (section_of bs) (section_of bs') (c :: t) =
    c :: replace (section_of bs) (section_of bs') t /\
  match_here (c :: replace (section_of bs) (section_of bs') t) = None.
Proof.
  intros Hbs Hnone.
  assert (~ section_of bs `prefix_of` c :: t) as Hpre.
  { intros [k Hk]. rewrite Hk in Hnone.
    by rewrite match_here_section in Hnone. }
  split; [by apply replace_miss|]. rewrite <- replace_miss by done.
  unfold match_here in *.
  destruct (startswith header (c :: t)) eqn:E.
  - destruct (lazy_group (drop (length header) (c :: t))) as [g|] eqn:Hg;
      [done|].
    rewrite replace_absent; [by rewrite E, Hg | done |].
    intros (a & b & Hab). apply startswith_prefix in E as [d Hd].
    rewrite Hd, drop_app_length in Hg.
    destruct (lazy_group_found d) as [g Hg']; [|congruence].
    rewrite Hd in Hab. unfold section_of in Hab. rewrite <- !app_assoc in Hab.
    apply header_at in Hab as [[_ ->] | (j & _ & ->)].
    + by exists bs, b.
    + exists (j ++ header ++ bs), b. by rewrite <- !app_assoc.
  - rewrite startswith_take. unfold section_of.
    rewrite take_replace by done. by rewrite <- startswith_take, E.
Qed.

(** The matches after [replace(section, modified)] are the matches
    before it, those that end with the section changed at their end. *)
Lemma finditer_replace bs bs' t :
  ~ occurs closer bs -> ~ occurs closer bs' ->
  finditer (replace (section_of bs) (section_of bs') t) =
  swap_end (section_of bs) (section_of bs') <$> finditer t.
Proof.
  intros Hbs Hbs'.
  apply (finditer_ind (fun t l =>
    finditer (replace (section_of bs) (section_of bs') t) =
    swap_end (section_of bs) (section_of bs') <$> l)).
  - rewrite replace_nil by done. by simp finditer.
  - intros y rest Hm IH.
    apply match_here_Some in Hm as (g & r & _ & -> & Hno).
    apply no_start_not_in in Hno. fold (section_of g).
    rewrite replace_in_match by done.
    destruct (swap_end_section g bs bs' Hno Hbs') as (g' & Hsw & Hg').
    cbn [fmap list_fmap]. rewrite Hsw.
    rewrite finditer_hit; [by rewrite IH|]. by apply match_here_section.
  - intros c t' Hm IH.
    destruct (match_here_replace bs bs' c t' Hbs Hm) as [Hr Hn].
    by rewrite Hr, finditer_miss.
Qed.

(** *** The edit of a section and of a match that ends with it *)

Lemma split_app sep a b :
  exists la xa xb lb,
    split sep a = la ++ [xa] /\ split sep b = xb :: lb /\
    split sep (a ++ b) = la ++ (xa ++ xb) :: lb.
Proof.
  induction a as [|c a (la & xa & xb & lb & Ha & Hb & Hab)].
  - pose proof (split_cons_ne sep b) as Hne.
    destruct (split sep b) as [|xb lb] eqn:E; [done|].
    by exists [], [], xb, lb.
  - cbn. rewrite Ha, Hab. destruct (eqc c sep).
    + by exists ([] :: la), xa, xb, lb.
    + destruct la as [|l0 la]; cbn.
      * by exists [], (c :: xa), xb, lb.
      * by exists ((c :: l0) :: la), xa, xb, lb.
Qed.

Lemma join_glue sep la xa xb lb :
  join sep (la ++ (xa ++ xb) :: lb) =
  join sep (la ++ [xa]) ++ join sep (xb :: lb).
Proof.
  induction la as [|l la IH].
  - cbn [app]. destruct lb as [|l' lb]; [done|].
    rewrite !(join_cons _ _ (l' :: lb)) by done. cbn [join].
    by rewrite <- !app_assoc.
  - cbn [app]. rewrite !(join_cons sep l) by (by destruct la).
    rewrite IH. by rewrite <- !app_assoc.
Qed.

(** [rstrip] stops at a character that is not to be stripped. *)
Lemma rstrip_by_keeps f c0 b :
  f c0 = false ->
  exists b1, forall a, rstrip_by f (a ++ c0 :: b) = a ++ c0 :: b1.
Proof.
  intros Hc. induction b as [|d b (b1 & IH)] using rev_ind.
  - exists []. intros a. by apply rstrip_by_stop.
  - destruct (f d) eqn:Hd.
    + exists b1. intros a. rewrite app_comm_cons, app_assoc.
      rewrite rstrip_by_all by (by constructor). apply IH.
    + exists (b ++ [d]). intros a. rewrite app_comm_cons, app_assoc.
      rewrite rstrip_by_stop by done. by rewrite <- app_assoc.
Qed.

Lemma endswith_one x w v : v <> [] -> endswith [x] (w ++ v) = endswith [x] v.
Proof.
  intros Hv. destruct v as [|e v _] using rev_ind; [done|].
  unfold endswith. rewrite app_assoc, !reverse_app, !reverse_singleton.
  done.
Qed.

(** The edit of the line before the removed one looks at the end of the
    line only. *)
Lemma comma_edit_app xa p c0 :
  c0 ∈ p -> isspace c0 = false -> char_in (txt ",") c0 = false ->
  (if endswith (txt ",") (strip (xa ++ p))
   then rstrip (txt ",") (xa ++ p) else xa ++ p) =
  xa ++ (if endswith (txt ",") (strip p) then rstrip (txt ",") p else p).
Proof.
  intros (a & b & ->)%list_elem_of_split Hsp Hco.
  destruct (rstrip_by_keeps isspace c0 b Hsp) as (b1 & Hb1).
  destruct (rstrip_by_keeps (char_in (txt ",")) c0 b Hco) as (b2 & Hb2).
  assert (forall z, endswith (txt ",") (strip (z ++ c0 :: b)) =
                    endswith (txt ",") (c0 :: b1)) as Hend.
  { intros z. unfold strip.
    destruct (lstrip_by_keeps isspace z c0 b Hsp) as [u ->].
    rewrite Hb1. by apply endswith_one. }
  rewrite app_assoc, !Hend. unfold rstrip. rewrite !Hb2.
  destruct (endswith _ _); by rewrite <- !app_assoc.
Qed.

(** The text put in place of a section, from its lines. *)
Lemma modified_section_lines z L1 prev line L2 :
  split LF z = L1 ++ prev :: line :: L2 ->
  (forall l, l ∈ L1 ++ [prev] -> contains plist l = false) ->
  contains plist line = true ->
  modified_section z =
  Some (join [LF]
          (L1 ++ (if endswith (txt ",") (strip prev)
                  then rstrip (txt ",") prev else prev) :: L2)).
Proof.
  intros Hsplit Hbefore Hline. rewrite modified_section_first_hit, Hsplit.
  assert (first_hit (L1 ++ prev :: line :: L2) = Some (S (length L1), line))
    as ->.
  { apply list_find_Some. split_and!; [|done|].
    - rewrite (cons_middle prev), app_assoc.
      replace (S (length L1)) with (length (L1 ++ [prev]))
        by (rewrite length_app; cbn; lia).
      apply list_lookup_middle. done.
    - intros j y Hj Hlt. rewrite (cons_middle prev), app_assoc in Hj.
      rewrite lookup_app_l in Hj by (rewrite length_app; cbn; lia).
      rewrite Hbefore; [done|]. by eapply list_elem_of_lookup_2. }
  cbn [fmap option_fmap option_map fst]. by rewrite drop_entry_middle.
Qed.

(** In a tidy section no line before the one that names the plist
    names it. *)
Lemma tidy_before z L1 line L2 :
  tidy z -> split LF z = L1 ++ line :: L2 -> contains plist line = true ->
  forall l, l ∈ L1 -> contains plist l = false.
Proof.
  intros (i & ln & Hhit & _ & _ & Hlater) Hsplit Hline l Hl.
  rewrite Hsplit in Hhit, Hlater.
  apply list_find_Some in Hhit as (Hi & Hln & Hfirst).
  assert ((L1 ++ line :: L2) !! length L1 = Some line) as Hk
    by (by apply list_lookup_middle).
  assert (length L1 = i) as <-.
  { destruct (Nat.lt_trichotomy (length L1) i) as [Hlt | [Heq | Hgt]]; [|done|].
    - by destruct (Hfirst _ _ Hk Hlt).
    - rewrite (Hlater _ _ Hgt Hk) in Hline. done.  }
  apply list_elem_of_lookup in Hl as [j Hj].
  destruct (contains plist l) eqn:E; [|done].
  destruct (Hfirst j l); [by apply lookup_app_l_Some | | done].
  by apply lookup_lt_Some in Hj.
Qed.

Lemma tidy_has_plist s : tidy s -> contains plist s = true.
Proof.
  intros (i & ln & Hhit & _). apply contains_plist_lines.
  apply list_find_Some in Hhit as (Hi & Hln & _).
  exists ln. split; [by eapply list_elem_of_lookup_2 | done].
Qed.

(** The first line of a text that begins with the header begins with
    the header. *)
Lemma split_header u :
  exists w rest, split LF (header ++ u) = (header ++ w) :: rest.
Proof.
  destruct (split_app LF header u) as (la & xa & xb & lb & Hh & _ & ->).
  rewrite split_single in Hh by apply LF_not_in_header.
  destruct la as [|l la].
  - cbn in Hh. injection Hh as <-. by exists xb, lb.
  - apply (f_equal length) in Hh. rewrite length_app in Hh. cbn in Hh. lia.
Qed.

Lemma slash_in_header w : ord "/" ∈ header ++ w.
Proof. by left. Qed.

(** The round of a tidy section [s] does to a tidy match [Y ++ s] what
    the round of that match would do. *)
Lemma patch_suffix Y s :
  header `prefix_of` s -> tidy s -> tidy (Y ++ s) ->
  exists m,
    modified_section s = Some m /\ modified_section (Y ++ s) = Some (Y ++ m).
Proof.
  intros [u ->] Hs Hy.
  destruct (tidy_lines _ Hs)
    as (l1 & prev & line & l2 & Hsplit & Hl2 & Hhit & Hbefore & Hafter).
  assert (contains plist line = true) as Hline
    by (by apply list_find_Some in Hhit as (_ & ? & _)).
  eexists. split.
  { apply (modified_section_lines _ l1 prev line l2); [done| |done].
    intros l Hl. apply contains_false. by apply Hbefore. }
  destruct (split_app LF Y (header ++ u))
    as (la & xa & xb & lb & HY & Hsu & Hlines).
  rewrite Hsplit in Hsu.
  rewrite <- (join_split LF Y) at 2. rewrite HY.
  destruct l1 as [|x0 l1]; cbn [app] in Hsu; injection Hsu as <- <-.
  - (* the line before the hit is the one that holds the seam *)
    rewrite (modified_section_lines _ la (xa ++ prev) line l2); try done.
    + f_equal. destruct (split_header u) as (w & rest & Hw).
      rewrite Hsplit, app_nil_l in Hw.
      assert (prev = header ++ w) as -> by congruence.
      rewrite (comma_edit_app xa (header ++ w) (ord "/"));
        [apply join_glue | apply slash_in_header | done..].
    + apply (tidy_before _ (la ++ [xa ++ prev]) line l2 Hy); [|done].
      by rewrite <- app_assoc.
  - rewrite (modified_section_lines _ (la ++ (xa ++ x0) :: l1) prev line l2);
      try done.
    + f_equal. rewrite <- !app_assoc. cbn [app]. apply join_glue.
    + by rewrite <- app_assoc.
    + apply (tidy_before _ ((la ++ (xa ++ x0) :: l1) ++ [prev]) line l2 Hy);
        [|done].
      by rewrite <- !app_assoc.
Qed.

(** *** All the rounds, when the sections with the plist are tidy *)

Lemma patched_plain x : contains plist x = false -> patched x = x.
Proof. intros H. unfold patched. by rewrite H. Qed.

Lemma patched_tidy b :
  ~ occurs closer b -> tidy (section_of b) ->
  exists b',
    modified_section (section_of b) = Some (section_of b') /\
    patched (section_of b) = section_of b' /\
    ~ occurs closer b' /\ contains plist (section_of b') = false.
Proof.
  intros Hb Htidy. destruct (tidy_patch b Hb Htidy) as (b' & Hm & Hc & Hgone).
  exists b'. split_and!; try done.
  unfold patched. by rewrite (tidy_has_plist _ Htidy), Hm.
Qed.

Lemma Forall2_impl_elem {A B} (R R' : A -> B -> Prop) l k :
  Forall2 R l k -> (forall x y, x ∈ l -> R x y -> R' x y) -> Forall2 R' l k.
Proof.
  induction 1 as [|x y l k Hxy _ IH]; intros Himpl; constructor.
  - apply Himpl; [by left | done].
  - apply IH. intros x' y' Hx'. apply Himpl. by right.
Qed.

Lemma Forall2_diag {A} (R : A -> A -> Prop) l :
  (forall x, x ∈ l -> R x x) -> Forall2 R l l.
Proof.
  induction l as [|x l IH]; intros H; constructor.
  - apply H. by left.
  - apply IH. intros y Hy. apply H. by right.
Qed.

Lemma tidy_rounds sections todo nc modified :
  (forall x, x ∈ sections ->
     exists b, x = section_of b /\ ~ occurs closer b /\
               (contains plist x = true -> tidy x)) ->
  (forall x, x ∈ todo -> x ∈ sections) ->
  Forall2 (stands todo) sections (finditer nc) ->
  finditer (fold_left step_state todo (nc, modified)).1 = patched <$> sections.
Proof.
  intros Hsec. revert nc modified.
  induction todo as [|s rest IH]; intros nc modified Htodo Hinv.
  - cbn. clear Hsec Htodo. induction Hinv as [|x c l k Hxc _ IHl]; [done|].
    cbn [fmap list_fmap]. f_equal; [|done].
    destruct Hxc as [[-> Hx] | [_ ->]]; [|done].
    destruct (contains plist x) eqn:E; [|by rewrite patched_plain].
    by apply elem_of_nil in Hx.
  - assert (forall x, x ∈ rest -> x ∈ sections) as Hrest
      by (intros x Hx; apply Htodo; by right).
    cbn [fold_left]. unfold step_state at 2.
    destruct (contains plist s) eqn:E.
    + destruct (Hsec s) as (bs & -> & Hcs & Htidy); [apply Htodo; by left|].
      specialize (Htidy E).
      destruct (patched_tidy bs Hcs Htidy) as (bs' & Hm & _ & Hc' & _).
      rewrite Hm. cbn [fst]. apply IH; [done|].
      rewrite finditer_replace by done. apply Forall2_fmap_r.
      apply (Forall2_impl_elem _ _ _ _ Hinv). clear Hinv.
      intros x c Hx [[-> Hpend] | [Hplist ->]]; unfold compose.
      * unfold swap_end.
        destruct (endswith (section_of bs) x) eqn:Eend.
        -- apply endswith_suffix in Eend as [Y HY]. rewrite HY in Hx, Hpend |- *.
           clear HY x.
           assert (contains plist (Y ++ section_of bs) = true) as Hp.
           { apply contains_occurs, occurs_app_r. by apply contains_occurs. }
           destruct (Hsec _ Hx) as (_ & _ & _ & Hty). specialize (Hty Hp).
           destruct (patch_suffix Y (section_of bs)
                       (header_prefix_section bs) Htidy Hty)
             as (m & Hm' & Hmy).
           right. split; [done|].
           rewrite length_app, Nat.add_sub, take_app_length.
           unfold patched. rewrite Hp, Hmy. cbn. congruence.
        -- left. split; [done|]. intros Hp.
           pose proof (Hpend Hp) as Hin.
           apply elem_of_cons in Hin as [-> | Hin]; [|done].
           assert (endswith (section_of bs) (section_of bs) = true) as E'
             by (by apply endswith_suffix).
           by rewrite Eend in E'.
      * right. split; [done|]. unfold swap_end.
        destruct (endswith (section_of bs) (patched x)) eqn:Eend; [|done].
        exfalso. apply endswith_suffix in Eend as [Y HY].
        destruct (Hsec _ Hx) as (b & -> & Hb & Hty). specialize (Hty Hplist).
        destruct (patched_tidy b Hb Hty) as (b' & _ & Hpb & _ & Hgone).
        apply contains_false in Hgone. apply Hgone.
        rewrite <- Hpb, HY. apply occurs_app_r. by apply contains_occurs.
    + apply IH; [done|]. apply (Forall2_impl_elem _ _ _ _ Hinv).
      intros x c _ [[-> Hpend] | ?]; [left | by right].
      split; [done|]. intros Hp.
      pose proof (Hpend Hp) as Hin.
      apply elem_of_cons in Hin as [-> | Hin]; [congruence | done].
Qed.

(** After the rounds on a content whose sections with the plist are
    tidy, the matches are those of the content, each as its round
    leaves it, and none of them holds the plist. *)
Lemma rounds_tidy content :
  (forall x, x ∈ finditer content -> contains plist x = true -> tidy x) ->
  finditer (rounds content).1 = patched <$> finditer content /\
  forall s, s ∈ finditer (rounds content).1 -> contains plist s = false.
Proof.
  intros Htidy.
  assert (forall x, x ∈ finditer content ->
            exists b, x = section_of b /\ ~ occurs closer b /\
                      (contains plist x = true -> tidy x)) as Hsec.
  { intros x Hx. destruct (finditer_section _ _ Hx) as (b & -> & Hb).
    exists b. split_and!; try done. by apply Htidy. }
  assert (finditer (rounds content).1 = patched <$> finditer content) as Heq.
  { apply tidy_rounds; [done..|]. apply Forall2_diag. intros x Hx. by left. }
  split; [done|]. rewrite Heq. intros s (x & -> & Hx)%list_elem_of_fmap.
  destruct (contains plist x) eqn:E; [|by rewrite patched_plain].
  destruct (Hsec x Hx) as (b & -> & Hb & Hty).
  by destruct (patched_tidy b Hb (Hty E)) as (b' & _ & -> & _ & ?).
Qed.

End RoundFacts.

(** ** Facts about the codec *)

Module CodecFacts.
Import Utf8.

Local Open Scope N_scope.

(** Comparisons of numbers in the goal, settled one by one. *)
Ltac cmp :=
  repeat match goal with
         | |- context [N.ltb ?a ?b] => destruct (N.ltb_spec a b); try lia
         | |- context [N.leb ?a ?b] => destruct (N.leb_spec a b); try lia
         | |- context [N.eqb ?a ?b] => destruct (N.eqb_spec a b); try lia
         end;
  cbn [andb orb negb].

(** The quotient and the remainder of [c] by [d], named. *)
Ltac divmod c d :=
  let q := fresh "q" in
  let r := fresh "r" in
  pose proof (N.div_mod' c d); pose proof (N.mod_lt c d ltac:(discriminate));
  generalize dependent (c / d); generalize dependent (c mod d); intros r ? q ?.

Lemma to_N_byte_of_N n : n < 256 -> Byte.to_N (byte_of_N n) = n.
Proof.
  intros Hn. unfold byte_of_N.
  destruct (Byte.of_N n) as [b|] eqn:E.
  - by apply Byte.to_of_N.
  - apply Byte.of_N_None_iff in E. lia.
Qed.

Lemma to_N_lt b : Byte.to_N b < 256.
Proof. pose proof (Byte.to_N_bounded b). lia. Qed.

Lemma decode_one n r :
  n < 128 -> decode (byte_of_N n :: r) = cons n <$> decode r.
Proof.
  intros Hn. cbn [decode]. rewrite to_N_byte_of_N by lia. by cmp.
Qed.

Lemma decode_two n0 n1 r :
  194 <= n0 <= 223 -> 128 <= n1 <= 191 ->
  decode (byte_of_N n0 :: byte_of_N n1 :: r) =
  cons ((n0 - 192) * 64 + (n1 - 128)) <$> decode r.
Proof.
  intros H0 H1. cbn [decode]. rewrite !to_N_byte_of_N by lia.
  unfold cont. by cmp.
Qed.

Lemma decode_three n0 n1 n2 r :
  224 <= n0 <= 239 -> n1 < 256 -> second_ok n0 n1 = true ->
  128 <= n2 <= 191 ->
  decode (byte_of_N n0 :: byte_of_N n1 :: byte_of_N n2 :: r) =
  cons (((n0 - 224) * 64 + (n1 - 128)) * 64 + (n2 - 128)) <$> decode r.
Proof.
  intros H0 H1 Hs H2. cbn [decode]. rewrite !to_N_byte_of_N by lia.
  rewrite Hs. unfold cont. by cmp.
Qed.

Lemma decode_four n0 n1 n2 n3 r :
  240 <= n0 <= 244 -> n1 < 256 -> second_ok n0 n1 = true ->
  128 <= n2 <= 191 -> 128 <= n3 <= 191 ->
  decode (byte_of_N n0 :: byte_of_N n1 :: byte_of_N n2 :: byte_of_N n3 :: r) =
  cons ((((n0 - 240) * 64 + (n1 - 128)) * 64 + (n2 - 128)) * 64 + (n3 - 128))
    <$> decode r.
Proof.
  intros H0 H1 Hs H2 H3. cbn [decode]. rewrite !to_N_byte_of_N by lia.
  rewrite Hs. unfold cont. by cmp.
Qed.

(** Decoding what encodes one character gives that character. *)
Lemma decode_encode_char c bs r :
  encode_char c = Some bs -> decode (bs ++ r) = cons c <$> decode r.
Proof.
  unfold encode_char.
  destruct (scalar c) eqn:Hsc; [|done]. cbn [negb].
  assert (c < 55296 \/ 57344 <= c < 1114112) as Hc.
  { unfold scalar in Hsc. revert Hsc. cmp; done || lia. }
  clear Hsc.
  destruct (N.ltb_spec c 128); [|destruct (N.ltb_spec c 2048)];
    [..|destruct (N.ltb_spec c 65536)]; intros [= <-]; cbn [app].
  - by apply decode_one.
  - divmod c 64. rewrite decode_two by lia. do 2 f_equal. lia.
  - divmod c 64. divmod q 64.
    rewrite decode_three; [do 2 f_equal; lia | lia | lia | | lia].
    unfold second_ok, cont. cmp; done || lia.
  - divmod c 64. divmod q 64. divmod q0 64.
    rewrite decode_four; [do 2 f_equal; lia | lia | lia | | lia | lia].
    unfold second_ok, cont. cmp; done || lia.
Qed.

Lemma decode_encode t bs : encode t = Some bs -> decode bs = Some t.
Proof.
  revert bs. induction t as [|c t IH]; intros bs; cbn.
  - by intros [= <-].
  - destruct (encode_char c) as [k|] eqn:Hk; [|done]. cbn.
    destruct (encode t) as [rest|] eqn:Hrest; [|done]. cbn. intros [= <-].
    rewrite (decode_encode_char c k rest Hk). by rewrite (IH rest).
Qed.

Lemma encode_scalar t :
  Forall (fun c => scalar c = true) t -> is_Some (encode t).
Proof.
  induction 1 as [|c t Hc _ [rest IH]]; cbn; [by eexists|].
  unfold encode_char. rewrite Hc, IH. cbn [negb].
  destruct (c <? 128); [|destruct (c <? 2048)]; [..|destruct (c <? 65536)];
    by eexists.
Qed.

(** What decodes is made of scalar values. *)
Lemma decode_scalar bs t :
  decode bs = Some t -> Forall (fun c => scalar c = true) t.
Proof.
  remember (length bs) as n eqn:Hn. revert bs t Hn.
  induction n as [n IH] using lt_wf_ind. intros bs t Hn.
  assert (forall r u, (length r < n)%nat -> decode r = Some u ->
            Forall (fun c => scalar c = true) u) as IH'
    by (intros r u Hr; by apply (IH (length r))).
  clear IH. destruct bs as [|x0 r0]; [by intros [= <-]|].
  cbn [decode]. pose proof (to_N_lt x0) as Hx0.
  set (b0 := Byte.to_N x0) in *. clearbody b0.
  assert (forall c r u,
            (length r < n)%nat -> scalar c = true ->
            cons c <$> decode r = Some u ->
            Forall (fun c => scalar c = true) u) as Hstep.
  { intros c r u Hr Hc. destruct (decode r) as [u'|] eqn:Hu; [|done].
    intros [= <-]. constructor; [done|]. by apply (IH' r). }
  cbn [length] in Hn.
  destruct (b0 <? 128) eqn:E1.
  { apply N.ltb_lt in E1. apply Hstep; [lia|]. unfold scalar. by cmp. }
  destruct ((194 <=? b0) && (b0 <=? 223)) eqn:E2.
  { apply andb_true_iff in E2 as [?%N.leb_le ?%N.leb_le].
    destruct r0 as [|x1 r1]; [done|].
    pose proof (to_N_lt x1). set (b1 := Byte.to_N x1) in *. clearbody b1.
    destruct (cont b1) eqn:Hc1; [|done].
    apply andb_true_iff in Hc1 as [?%N.leb_le ?%N.leb_le].
    apply Hstep; [cbn [length] in Hn; lia|]. unfold scalar. by cmp. }
  destruct ((224 <=? b0) && (b0 <=? 239)) eqn:E3.
  { apply andb_true_iff in E3 as [?%N.leb_le ?%N.leb_le].
    destruct r0 as [|x1 [|x2 r2]]; [done..|].
    pose proof (to_N_lt x1). set (b1 := Byte.to_N x1) in *. clearbody b1.
    pose proof (to_N_lt x2). set (b2 := Byte.to_N x2) in *. clearbody b2.
    destruct (second_ok b0 b1) eqn:Hs; cbn [andb]; [|done].
    destruct (cont b2) eqn:Hc2; [|done].
    apply andb_true_iff in Hc2 as [?%N.leb_le ?%N.leb_le].
    apply Hstep; [cbn [length] in Hn; lia|].
    unfold second_ok, cont in Hs. revert Hs. unfold scalar.
    cmp; done || lia. }
  destruct ((240 <=? b0) && (b0 <=? 244)) eqn:E4; [|done].
  apply andb_true_iff in E4 as [?%N.leb_le ?%N.leb_le].
  destruct r0 as [|x1 [|x2 [|x3 r3]]]; [done..|].
  pose proof (to_N_lt x1). set (b1 := Byte.to_N x1) in *. clearbody b1.
  pose proof (to_N_lt x2). set (b2 := Byte.to_N x2) in *. clearbody b2.
  pose proof (to_N_lt x3). set (b3 := Byte.to_N x3) in *. clearbody b3.
  destruct (second_ok b0 b1) eqn:Hs; cbn [andb]; [|done].
  destruct (cont b2) eqn:Hc2; cbn [andb]; [|done].
  apply andb_true_iff in Hc2 as [?%N.leb_le ?%N.leb_le].
  destruct (cont b3) eqn:Hc3; [|done].
  apply andb_true_iff in Hc3 as [?%N.leb_le ?%N.leb_le].
  apply Hstep; [cbn [length] in Hn; lia|].
  unfold second_ok, cont in Hs. revert Hs. unfold scalar.
  cmp; done || lia.
Qed.

End CodecFacts.
(** ** The run, step by step *)

(** Membership in a list written out in full. *)
Ltac in_list :=
  repeat match goal with
         | H : _ ∈ _ :: _ |- _ => apply elem_of_cons in H; destruct H
         | H : _ ∈ [] |- _ => by apply elem_of_nil in H
         end;
  subst; rewrite ?elem_of_cons; auto 10.

Lemma patch_section_spec st section w :
  patch_section st section w =
  (Ret (step_state st section),
   World (files w) (stdout w ++ step_output section) (trace w)).
Proof.
  unfold patch_section, step_state, step_output.
  destruct (Py.contains plist section).
  - destruct (modified_section section);
      unfold mbind, M_bind, mret, M_ret, print; cbn.
    + by rewrite <- app_assoc.
    + done.
  - unfold mret, M_ret. rewrite app_nil_r. by destruct w.
Qed.

Lemma for_each_patch_section sections st w :
  for_each patch_section sections st w =
  (Ret (fold_left step_state sections st),
   World (files w) (stdout w ++ flat_map step_output sections) (trace w)).
Proof.
  revert st w. induction sections as [|x xs IH]; intros st w; cbn.
  - unfold mret, M_ret. rewrite app_nil_r. by destruct w.
  - unfold mbind, M_bind. rewrite patch_section_spec, IH. cbn.
    by rewrite <- app_assoc.
Qed.

Lemma backup_path_neq : backup_path <> pbxproj_path.
Proof. discriminate. Qed.

Lemma fold_step_no_hit sections st :
  (forall s, s ∈ sections -> Py.contains plist s = false) ->
  fold_left step_state sections st = st /\
  flat_map step_output sections = [].
Proof.
  revert st. induction sections as [|x xs IH]; intros st Hno; [done|].
  cbn. unfold step_state at 2, step_output at 1.
  rewrite (Hno x) by in_list. cbn.
  apply IH. intros s Hs. apply Hno. in_list.
Qed.

(** The flag after the loop: set by the first section that contains
    the plist. *)
Lemma fold_step_flag sections st :
  (fold_left step_state sections st).2 =
  st.2 || existsb (Py.contains plist) sections.
Proof.
  revert st. induction sections as [|x xs IH]; intros st; cbn.
  - by rewrite orb_false_r.
  - rewrite IH. unfold step_state.
    destruct (Py.contains plist x) eqn:E; [|done].
    destruct (PyFacts.first_hit_exists x E) as [hit Hhit].
    rewrite PyFacts.modified_section_first_hit, Hhit. cbn.
    by rewrite !orb_true_r.
Qed.

Lemma existsb_plist sections :
  existsb (Py.contains plist) sections = true <->
  exists x, x ∈ sections /\ Py.contains plist x = true.
Proof. rewrite existsb_exists. by setoid_rewrite list_elem_of_In. Qed.

(** What the loop prints: two lines for each section that contains the
    plist. *)
Lemma step_output_pairs sections :
  flat_map step_output sections =
  flat_map (fun _ => ["Found InstaMathInfo.plist in Copy Bundle Resources";
                      "Removed InstaMathInfo.plist from Copy Bundle Resources"])
           (filter (fun x => Py.contains plist x = true) sections).
Proof.
  induction sections as [|x xs IH]; [done|].
  cbn [flat_map]. rewrite filter_cons, IH. unfold step_output.
  destruct (Py.contains plist x) eqn:E.
  - destruct (PyFacts.first_hit_exists x E) as [hit Hhit].
    rewrite PyFacts.modified_section_first_hit, Hhit.
    by rewrite decide_True.
  - by rewrite decide_False.
Qed.

(** The rounds of the loop only take characters away. *)
Lemma fold_step_sublist sections st :
  (forall x, x ∈ sections -> x <> []) ->
  (fold_left step_state sections st).1 `sublist_of` st.1.
Proof.
  revert st. induction sections as [|x xs IH]; intros st Hne; [done|].
  cbn [fold_left]. etrans; [apply IH; intros y Hy; apply Hne; by right|].
  unfold step_state. destruct (Py.contains plist x); [|done].
  destruct (modified_section x) as [m|] eqn:Hm; [|done]. cbn [fst].
  apply EditFacts.replace_smaller; [apply Hne; by left|].
  by apply EditFacts.modified_section_smaller.
Qed.

Lemma fold_step_shorter sections content modified :
  (forall x, x ∈ sections -> x <> [] /\ occurs x content) ->
  (exists x, x ∈ sections /\ Py.contains plist x = true) ->
  length (fold_left step_state sections (content, modified)).1 + length plist
  <= length content.
Proof.
  revert modified. induction sections as [|x xs IH];
    intros modified Hsec (y & Hy & Hplist).
  - by apply elem_of_nil in Hy.
  - destruct (Hsec x) as [Hne Hocc]; [by left|].
    assert (forall z, z ∈ xs -> z <> []) as Hne'
      by (intros z Hz; apply Hsec; by right).
    cbn [fold_left]. unfold step_state at 2.
    destruct (Py.contains plist x) eqn:E.
    + destruct (PyFacts.first_hit_exists x E) as [hit Hhit].
      pose proof (PyFacts.modified_section_first_hit x) as Hm.
      rewrite Hhit in Hm. cbn [fmap option_fmap option_map] in Hm.
      rewrite Hm. cbn [fst].
      apply EditFacts.modified_section_smaller in Hm as [Hsub Hlen].
      destruct (EditFacts.replace_smaller x _ content Hne Hsub) as [_ Hshort].
      specialize (Hshort Hocc).
      pose proof (sublist_length _ _ (fold_step_sublist xs
        (Py.replace x (Py.join [Py.LF] (drop_entry (Py.split Py.LF x) hit.1))
           content, true) Hne')) as Hrest.
      cbn [fst] in Hrest. lia.
    + apply elem_of_cons in Hy as [-> | Hy]; [congruence|].
      apply IH; [intros z Hz; apply Hsec; by right | by exists y].
Qed.

Lemma rounds_sublist content : (rounds content).1 `sublist_of` content.
Proof.
  apply (fold_step_sublist (Re.finditer content) (content, false)).
  intros x Hx. by eapply ReFacts.finditer_nonempty.
Qed.

Lemma rounds_flag content :
  (rounds content).2 = existsb (Py.contains plist) (Re.finditer content).
Proof. apply (fold_step_flag _ (content, false)). Qed.

(** The round of a section that contains the plist, on any
    [new_content]: every occurrence of the section is replaced. *)
Lemma step_state_join content s nc modified :
  s ∈ Re.finditer content -> Py.contains plist s = true ->
  exists m gaps,
    modified_section s = Some m /\
    nc = Py.join s gaps /\ (forall g, g ∈ gaps -> ~ occurs s g) /\
    step_state (nc, modified) s = (Py.join m gaps, true).
Proof.
  intros Hin Hs.
  destruct (PyFacts.first_hit_exists s Hs) as [[i line] Hhit].
  pose proof (PyFacts.modified_section_first_hit s) as Hm.
  rewrite Hhit in Hm. cbn in Hm.
  pose proof (ReFacts.finditer_nonempty _ _ Hin) as Hne.
  destruct (EditFacts.split_by s nc Hne) as (gaps & _ & Hnc & Hgaps).
  eexists _, gaps. split_and!; try done.
  unfold step_state. rewrite Hs, Hm. cbn [fst]. f_equal.
  rewrite Hnc. apply PyFacts.replace_join; try done.
  by eapply ReFacts.finditer_unbordered.
Qed.

(** The text read from a decoded file, and what the rounds make of it,
    can be encoded. *)
Lemma rounds_scalar raw decoded :
  Utf8.decode raw = Some decoded ->
  Forall (fun c => Utf8.scalar c = true)
         (rounds (universal_newlines decoded)).1.
Proof.
  intros Hdec. apply CodecFacts.decode_scalar in Hdec.
  rewrite Forall_forall in Hdec |- *. intros c Hc.
  apply (sublist_subseteq _ _ (rounds_sublist _)) in Hc.
  apply EditFacts.universal_newlines_elem in Hc as [Hc | ->]; [by apply Hdec|].
  reflexivity.
Qed.

Lemma run_missing fs :
  fs !! pbxproj_path = None ->
  run fs =
  (Exited 1,
   World fs ["Error: " +:+ pbxproj_path +:+ " not found"]
         [ev_exists pbxproj_path]).
Proof.
  intros Hno. unfold run, script, mbind, M_bind, os_path_exists. cbn -[pbxproj_path].
  rewrite Hno. rewrite bool_decide_eq_false_2 by (intros [? ?]; done).
  reflexivity.
Qed.

(** A file that does not decode: the read raises, after the backup. *)
Lemma run_undecodable fs raw :
  fs !! pbxproj_path = Some raw -> Utf8.decode raw = None ->
  run fs =
  (Raised UnicodeDecodeError,
   World (<[backup_path := raw]> fs)
         ["Created backup at " +:+ backup_path]
         [ev_exists pbxproj_path; ev_copy pbxproj_path backup_path;
          ev_read pbxproj_path]).
Proof.
  intros Hraw Hdec.
  unfold run, script, mbind, M_bind, os_path_exists, shutil_copy2, read_text.
  cbn -[pbxproj_path backup_path Re.finditer universal_newlines Utf8.decode].
  rewrite Hraw. rewrite bool_decide_eq_true_2 by eauto.
  cbn -[pbxproj_path backup_path Re.finditer universal_newlines Utf8.decode].
  rewrite Hraw.
  cbn -[pbxproj_path backup_path Re.finditer universal_newlines Utf8.decode].
  rewrite lookup_insert_ne by apply backup_path_neq. rewrite Hraw, Hdec.
  reflexivity.
Qed.

(** A file that decodes: the script runs to its end. *)
Lemma run_present fs raw decoded :
  fs !! pbxproj_path = Some raw -> Utf8.decode raw = Some decoded ->
  let content := universal_newlines decoded in
  let st := rounds content in
  let fs' := <[backup_path := raw]> fs in
  exists written,
    Utf8.encode st.1 = Some written /\
    Utf8.decode written = Some st.1 /\
    run fs =
    (Ret tt,
     World (if st.2 then <[pbxproj_path := written]> fs' else fs')
           (("Created backup at " +:+ backup_path) ::
            flat_map step_output (Re.finditer content) ++
            [if st.2 then "Successfully updated project.pbxproj"
             else "No changes were made"])
           ([ev_exists pbxproj_path; ev_copy pbxproj_path backup_path;
             ev_read pbxproj_path] ++
            if st.2 then [ev_write pbxproj_path] else [])).
Proof.
  intros Hraw Hdec content st fs'.
  destruct (CodecFacts.encode_scalar _ (rounds_scalar raw decoded Hdec))
    as [written Hw].
  fold content st in Hw. exists written. split; [done|].
  split; [by apply CodecFacts.decode_encode|].
  unfold run, script, mbind, M_bind, os_path_exists, shutil_copy2, read_text.
  cbn -[pbxproj_path backup_path Re.finditer universal_newlines Utf8.decode].
  rewrite Hraw. rewrite bool_decide_eq_true_2 by eauto.
  cbn -[pbxproj_path backup_path Re.finditer universal_newlines Utf8.decode].
  rewrite Hraw.
  cbn -[pbxproj_path backup_path Re.finditer universal_newlines Utf8.decode].
  rewrite lookup_insert_ne by apply backup_path_neq. rewrite Hraw, Hdec.
  rewrite for_each_patch_section.
  fold content. change (fold_left step_state (Re.finditer content) (content, false))
    with st.
  destruct st as [new_content modified]. cbn [fst snd] in *.
  destruct modified; [|reflexivity].
  unfold write_text, print.
  cbn -[pbxproj_path backup_path Re.finditer universal_newlines Utf8.encode].
  by rewrite Hw.
Qed.

(** After a run on an existing file the backup holds the file as it
    was and the target holds some content. *)
Lemma files_after_run fs raw :
  fs !! pbxproj_path = Some raw ->
  files (run fs).2 !! backup_path = Some raw /\
  exists out, files (run fs).2 !! pbxproj_path = Some out.
Proof.
  intros Hraw. destruct (Utf8.decode raw) as [decoded|] eqn:Hdec.
  - destruct (run_present fs raw decoded Hraw Hdec) as (written & _ & _ & ->).
    cbn -[pbxproj_path backup_path]. destruct (rounds _).2.
    + rewrite lookup_insert_ne by (symmetry; apply backup_path_neq).
      rewrite !lookup_insert_eq. eauto.
    + rewrite lookup_insert_eq, lookup_insert_ne by apply backup_path_neq. eauto.
  - rewrite (run_undecodable fs raw Hraw Hdec). cbn -[pbxproj_path backup_path].
    rewrite lookup_insert_eq, lookup_insert_ne by apply backup_path_neq. eauto.
Qed.

Lemma rounds_no_hit content :
  (forall s, s ∈ Re.finditer content -> Py.contains plist s = false) ->
  rounds content = (content, false) /\
  flat_map step_output (Re.finditer content) = [].
Proof. intros Hno. by apply fold_step_no_hit. Qed.

Lemma rounds_no_CR decoded : Py.CR ∉ (rounds (universal_newlines decoded)).1.
Proof.
  intros Hcr. apply (EditFacts.universal_newlines_no_CR decoded).
  eapply sublist_subseteq; [apply rounds_sublist | exact Hcr].
Qed.

(** ** The run as a whole *)

(** C2, as amended. The exit status is non-zero exactly when no file
    exists at the hardcoded path or the file there is not well-formed
    UTF-8. When the file is missing the run prints the single line
    "Error: <path> not found", leaves the file system as it found it (no
    backup, nothing written: the only call is the existence test) and
    exits with status 1. When the file exists but does not decode, the
    read raises [UnicodeDecodeError] after the backup was made and
    announced; nothing is written to the target. When the file exists
    and decodes the script runs to its end. *)
Theorem exit_nonzero_iff_missing_or_undecodable (fs : gmap string bytes) :
  (exit_status (run fs).1 <> 0 <->
   fs !! pbxproj_path = None \/
   exists raw, fs !! pbxproj_path = Some raw /\ Utf8.decode raw = None) /\
  (fs !! pbxproj_path = None ->
   (run fs).1 = Exited 1 /\
   stdout (run fs).2 =
     ["Error: /Users/admin/Desktop/InstaMath/InstaMath.xcodeproj/project.pbxproj not found"] /\
   files (run fs).2 = fs /\
   trace (run fs).2 = [ev_exists pbxproj_path]) /\
  (forall raw,
     fs !! pbxproj_path = Some raw -> Utf8.decode raw = None ->
     (run fs).1 = Raised UnicodeDecodeError /\
     exit_status (run fs).1 = 1 /\
     stdout (run fs).2 =
       ["Created backup at /Users/admin/Desktop/InstaMath/InstaMath.xcodeproj/project.pbxproj.bak"] /\
     files (run fs).2 = <[backup_path := raw]> fs /\
     trace (run fs).2 =
       [ev_exists pbxproj_path; ev_copy pbxproj_path backup_path;
        ev_read pbxproj_path]) /\
  (forall raw,
     fs !! pbxproj_path = Some raw -> is_Some (Utf8.decode raw) ->
     (run fs).1 = Ret tt /\ exit_status (run fs).1 = 0).
Proof.
  destruct (fs !! pbxproj_path) as [raw|] eqn:Hraw.
  - destruct (Utf8.decode raw) as [decoded|] eqn:Hdec.
    + destruct (run_present fs raw decoded Hraw Hdec) as (written & _ & _ & ->).
      cbn. split_and!; try done.
      * split; [done|]. intros [? | (raw' & [= <-] & ?)]; congruence.
      * intros raw' [= <-] ?. congruence.
    + rewrite (run_undecodable fs raw Hraw Hdec). cbn. split_and!; try done.
      * split; [|done]. intros _. right. by exists raw.
      * by intros raw' [= <-] _.
      * intros raw' [= <-] [? ?]. congruence.
  - rewrite (run_missing fs Hraw). cbn. split_and!; try done.
    split; [by left | done].
Qed.

(** C3. When the file exists, the first call that touches a file's
    content is the copy to the path with ".bak" appended: it comes
    right after the existence test and before the file is read (so before
    any search or change) and before any write. The backup holds the
    original content at the end of the run, whatever was written to the
    target. *)
Theorem backup_made_first (fs : gmap string bytes) (raw : bytes) :
  fs !! pbxproj_path = Some raw ->
  backup_path =
    "/Users/admin/Desktop/InstaMath/InstaMath.xcodeproj/project.pbxproj.bak" /\
  files (run fs).2 !! backup_path = Some raw /\
  exists later,
    trace (run fs).2 =
      ev_exists pbxproj_path :: ev_copy pbxproj_path backup_path :: later /\
    ev_read pbxproj_path ∈ later /\
    forall e, e ∈ later -> e = ev_read pbxproj_path \/ e = ev_write pbxproj_path.
Proof.
  intros Hraw. split; [reflexivity|].
  split; [by apply files_after_run|].
  destruct (Utf8.decode raw) as [decoded|] eqn:Hdec.
  - destruct (run_present fs raw decoded Hraw Hdec) as (written & _ & _ & ->).
    cbn -[pbxproj_path backup_path].
    eexists. split; [reflexivity|]. split; [in_list|].
    intros e He. destruct (rounds _).2; in_list.
  - rewrite (run_undecodable fs raw Hraw Hdec). cbn -[pbxproj_path backup_path].
    eexists. split; [reflexivity|]. split; [in_list|].
    intros e He. in_list.
Qed.

(** C5. Every file-system call of a run is on the hardcoded path or on
    that path with ".bak" appended, and every other path of the file
    system holds after the run what it held before. *)
Theorem only_two_paths_touched (fs : gmap string bytes) :
  pbxproj_path =
    "/Users/admin/Desktop/InstaMath/InstaMath.xcodeproj/project.pbxproj" /\
  backup_path = pbxproj_path +:+ ".bak" /\
  (forall e p, e ∈ trace (run fs).2 -> p ∈ event_paths e ->
     p = pbxproj_path \/ p = backup_path) /\
  (forall p, p <> pbxproj_path -> p <> backup_path ->
     files (run fs).2 !! p = fs !! p).
Proof.
  split; [reflexivity|]. split; [reflexivity|].
  destruct (fs !! pbxproj_path) as [raw|] eqn:Hraw.
  - destruct (Utf8.decode raw) as [decoded|] eqn:Hdec.
    + destruct (run_present fs raw decoded Hraw Hdec) as (written & _ & _ & ->).
      cbn -[pbxproj_path backup_path]. split.
      * intros e p He Hp.
        destruct (rounds _).2; in_list; cbn in Hp; in_list.
      * intros p Hp Hb. destruct (rounds _).2.
        -- by rewrite !lookup_insert_ne.
        -- by rewrite lookup_insert_ne.
    + rewrite (run_undecodable fs raw Hraw Hdec).
      cbn -[pbxproj_path backup_path]. split.
      * intros e p He Hp. in_list; cbn in Hp; in_list.
      * intros p Hp Hb. by rewrite lookup_insert_ne.
  - rewrite (run_missing fs Hraw). cbn -[pbxproj_path backup_path]. split.
    + intros e p He Hp. in_list. cbn in Hp. in_list.
    + done.
Qed.

(** C6, as amended. When the file exists, decodes as UTF-8, and none of
    its Copy Bundle Resources sections contains "InstaMathInfo.plist",
    the run never opens the target for writing: the target holds its
    original bytes at the end, the only change to the file system is the
    ".bak" backup (with the original bytes), and the last line printed
    is "No changes were made". *)
Theorem no_hit_no_write (fs : gmap string bytes) (raw : bytes) (decoded : text) :
  fs !! pbxproj_path = Some raw ->
  Utf8.decode raw = Some decoded ->
  (forall s, s ∈ Re.finditer (universal_newlines decoded) ->
     Py.contains plist s = false) ->
  (forall p, ev_write p ∉ trace (run fs).2) /\
  files (run fs).2 !! pbxproj_path = Some raw /\
  files (run fs).2 = <[backup_path := raw]> fs /\
  stdout (run fs).2 =
    ["Created backup at /Users/admin/Desktop/InstaMath/InstaMath.xcodeproj/project.pbxproj.bak";
     "No changes were made"] /\
  (run fs).1 = Ret tt.
Proof.
  intros Hraw Hdec Hno.
  destruct (run_present fs raw decoded Hraw Hdec) as (written & _ & _ & ->).
  destruct (rounds_no_hit _ Hno) as [-> ->].
  cbn -[pbxproj_path backup_path]. split_and!; try done.
  - intros p Hp. in_list; discriminate.
  - rewrite lookup_insert_ne by apply backup_path_neq. done.
Qed.

(** C9. Two runs that start from file systems agreeing on the hardcoded
    path (the file is missing in both, or present with the same content
    in both) end the same way, print the same lines, make the same
    file-system calls and leave the same content at the target. When the
    file exists they also leave the same backup; when it is missing no
    run writes a backup, and the backup path keeps what it held. *)
Theorem run_deterministic (fs1 fs2 : gmap string bytes) :
  fs1 !! pbxproj_path = fs2 !! pbxproj_path ->
  (run fs1).1 = (run fs2).1 /\
  exit_status (run fs1).1 = exit_status (run fs2).1 /\
  stdout (run fs1).2 = stdout (run fs2).2 /\
  trace (run fs1).2 = trace (run fs2).2 /\
  files (run fs1).2 !! pbxproj_path = files (run fs2).2 !! pbxproj_path /\
  (is_Some (fs1 !! pbxproj_path) ->
   files (run fs1).2 !! backup_path = files (run fs2).2 !! backup_path) /\
  (fs1 !! pbxproj_path = None ->
   files (run fs1).2 !! backup_path = fs1 !! backup_path /\
   files (run fs2).2 !! backup_path = fs2 !! backup_path).
Proof.
  intros Hsame. destruct (fs1 !! pbxproj_path) as [raw|] eqn:H1; symmetry in Hsame.
  - assert (files (run fs1).2 !! backup_path = files (run fs2).2 !! backup_path)
      as Hbak.
    { destruct (files_after_run fs1 raw H1) as [-> _].
      by destruct (files_after_run fs2 raw Hsame) as [-> _]. }
    destruct (Utf8.decode raw) as [decoded|] eqn:Hdec.
    + destruct (run_present fs1 raw decoded H1 Hdec) as (w1 & Hw1 & _ & Hrun1).
      destruct (run_present fs2 raw decoded Hsame Hdec) as (w2 & Hw2 & _ & Hrun2).
      assert (w2 = w1) as -> by congruence. clear Hw1 Hw2.
      rewrite Hrun1, Hrun2 in Hbak |- *. clear Hrun1 Hrun2.
      cbn -[pbxproj_path backup_path] in *. split_and!; try done.
      destruct (rounds _).2.
      * by rewrite !lookup_insert_eq.
      * rewrite !lookup_insert_ne by apply backup_path_neq. congruence.
    + rewrite (run_undecodable fs1 raw H1 Hdec),
        (run_undecodable fs2 raw Hsame Hdec) in Hbak |- *.
      cbn -[pbxproj_path backup_path] in *. split_and!; try done.
      rewrite !lookup_insert_ne by apply backup_path_neq. congruence.
  - rewrite (run_missing fs1 H1), (run_missing fs2 Hsame).
    cbn -[pbxproj_path backup_path]. split_and!; try done.
    congruence.
Qed.

(** ** The edit of one section *)

(** C4, as amended. Let a matched section contain "InstaMathInfo.plist".
    The text the script puts in its place is made of the section's
    lines without exactly one of them, the first line that names the
    plist; the lines before it and after it are all there, in their
    order, as in the section, but for the line right before the removed
    one, which may have lost the commas at its end. The round of the
    section puts that text in the place of every occurrence of the
    section in [new_content], whatever [new_content] is by then. When
    every matched section that contains the plist is tidy (it names the
    plist on one line only, neither its first nor its last), the
    sections of the written file are the sections of the file read, in
    their order, each one as its own round leaves it. *)
Theorem first_plist_line_removed
    (fs : gmap string bytes) (raw : bytes) (decoded section : text) :
  fs !! pbxproj_path = Some raw ->
  Utf8.decode raw = Some decoded ->
  section ∈ Re.finditer (universal_newlines decoded) ->
  Py.contains plist section = true ->
  let content := universal_newlines decoded in
  let lines := Py.split Py.LF section in
  exists i line kept,
    lines !! i = Some line /\
    Py.contains plist line = true /\
    (forall j l, j < i -> lines !! j = Some l -> Py.contains plist l = false) /\
    modified_section section = Some (Py.join [Py.LF] kept) /\
    S (length kept) = length lines /\
    (forall j, S j < i -> kept !! j = lines !! j) /\
    (forall j, S j = i ->
       exists prev, lines !! j = Some prev /\
         (kept !! j = Some prev \/
          kept !! j = Some (Py.rstrip (txt ",") prev))) /\
    (forall j, i <= j -> kept !! j = lines !! S j) /\
    (forall new_content modified w,
       exists gaps,
         new_content = Py.join section gaps /\
         (forall g, g ∈ gaps -> ~ occurs section g) /\
         patch_section (new_content, modified) section w =
         (Ret (Py.join (Py.join [Py.LF] kept) gaps, true),
          World (files w)
                (stdout w ++
                 ["Found InstaMathInfo.plist in Copy Bundle Resources";
                  "Removed InstaMathInfo.plist from Copy Bundle Resources"])
                (trace w))) /\
    ((forall x, x ∈ Re.finditer content ->
        Py.contains plist x = true -> tidy x) ->
     patched section = Py.join [Py.LF] kept /\
     exists written out,
       files (run fs).2 !! pbxproj_path = Some written /\
       Utf8.decode written = Some out /\
       Re.finditer out = patched <$> Re.finditer content).
Proof.
  intros Hraw Hdec Hsec Hin content lines.
  destruct (PyFacts.first_hit_exists section Hin) as [[i line] Hhit].
  fold lines in Hhit. pose proof Hhit as Hfind.
  apply list_find_Some in Hfind as (Hi & Hline & Hfirst).
  assert (modified_section section = Some (Py.join [Py.LF] (drop_entry lines i)))
    as Hm.
  { rewrite PyFacts.modified_section_first_hit. fold lines. by rewrite Hhit. }
  exists i, line, (drop_entry lines i).
  split_and!; try done.
  - intros j l Hj Hl. specialize (Hfirst j l Hl Hj).
    by destruct (Py.contains plist l).
  - destruct i as [|j].
    + rewrite PyFacts.drop_entry_0. destruct lines; [done | cbn; by rewrite drop_0].
    + destruct (lookup_lt_is_Some_2 lines j) as [prev Hprev];
        [apply lookup_lt_Some in Hi; lia|].
      rewrite (PyFacts.drop_entry_S _ _ _ Hprev).
      apply lookup_lt_Some in Hi.
      rewrite length_app, length_take. cbn. rewrite length_drop. lia.
  - intros j Hj. destruct i as [|[|i]]; [lia..|].
    destruct (lookup_lt_is_Some_2 lines (S i)) as [prev Hprev];
      [apply lookup_lt_Some in Hi; lia|].
    rewrite (PyFacts.drop_entry_S _ _ _ Hprev).
    rewrite lookup_app_l by (rewrite length_take; apply lookup_lt_Some in Hi; lia).
    apply lookup_take_lt. lia.
  - intros j <-.
    destruct (lookup_lt_is_Some_2 lines j) as [prev Hprev];
      [apply lookup_lt_Some in Hi; lia|].
    exists prev. split; [done|].
    rewrite (PyFacts.drop_entry_S _ _ _ Hprev).
    rewrite list_lookup_middle
      by (rewrite length_take; apply lookup_lt_Some in Hprev; lia).
    destruct (Py.endswith _ _); auto.
  - intros j Hj. destruct i as [|k].
    + rewrite PyFacts.drop_entry_0, lookup_drop. f_equal.
    + destruct (lookup_lt_is_Some_2 lines k) as [prev Hprev];
        [apply lookup_lt_Some in Hi; lia|].
      rewrite (PyFacts.drop_entry_S _ _ _ Hprev).
      assert (length (take k lines) = k) as Hlen
        by (rewrite length_take; apply lookup_lt_Some in Hprev; lia).
      rewrite lookup_app_r by lia. rewrite Hlen.
      rewrite lookup_cons_ne_0, lookup_drop by lia. f_equal. lia.
  - intros new_content modified w.
    destruct (step_state_join content section new_content modified Hsec Hin)
      as (m & gaps & Hm' & Hnc & Hgaps & Hstep).
    assert (m = Py.join [Py.LF] (drop_entry lines i)) as -> by congruence.
    exists gaps. split_and!; try done.
    rewrite patch_section_spec, Hstep. unfold step_output. by rewrite Hin, Hm.
  - intros Htidy. split; [unfold patched; by rewrite Hin, Hm|].
    destruct (run_present fs raw decoded Hraw Hdec) as (written & _ & Hback & ->).
    fold content. rewrite rounds_flag.
    replace (existsb _ _) with true
      by (symmetry; apply existsb_plist; by exists section).
    cbn -[pbxproj_path backup_path]. exists written, (rounds content).1.
    split; [apply lookup_insert_eq|]. split; [done|].
    by apply RoundFacts.rounds_tidy.
Qed.

(** C7. Let line [i] be the one the script removes from a section (the
    first that names the plist). If [i] is 0, the text put in place of
    the section is made of the lines after it, unchanged, and nothing
    else is edited. Otherwise the line before it, [prev], is the only
    one edited: when [prev.strip()] ends with a comma it becomes
    [prev.rstrip(',')], else it stays as it is. [rstrip(',')] takes away
    every comma at the end of the raw line, so a line that ends in
    several commas loses them all, while a line whose commas are
    followed by white space passes the test and stays unchanged. *)
Theorem comma_before_removed_line :
  (forall section i line,
     let lines := Py.split Py.LF section in
     first_hit lines = Some (i, line) ->
     match i with
     | O => modified_section section = Some (Py.join [Py.LF] (drop 1 lines))
     | S j =>
         exists prev, lines !! j = Some prev /\
           modified_section section =
           Some (Py.join [Py.LF]
                   (take j lines ++
                    (if Py.endswith (txt ",") (Py.strip prev)
                     then Py.rstrip (txt ",") prev else prev)
                    :: drop (S i) lines))
     end) /\
  (forall base n,
     last base <> Some (ord ",") ->
     Py.rstrip (txt ",") (base ++ replicate n (ord ",")) = base) /\
  (forall base ws,
     Forall (fun c => Py.isspace c = true) ws ->
     Py.endswith (txt ",") (Py.strip (base ++ ord "," :: ws)) = true /\
     (ws <> [] ->
      Py.rstrip (txt ",") (base ++ ord "," :: ws) = base ++ ord "," :: ws)).
Proof.
  split_and!.
  - intros section i line lines Hhit.
    rewrite PyFacts.modified_section_first_hit. fold lines. rewrite Hhit. cbn.
    destruct i as [|j].
    + by rewrite PyFacts.drop_entry_0.
    + apply list_find_Some in Hhit as (Hi & _ & _).
      destruct (lookup_lt_is_Some_2 lines j) as [prev Hprev];
        [apply lookup_lt_Some in Hi; lia|].
      exists prev. split; [done|]. by rewrite (PyFacts.drop_entry_S _ _ _ Hprev).
  - apply PyFacts.rstrip_commas.
  - intros base ws Hws. split; [by apply PyFacts.strip_endswith_comma|].
    intros Hne. rewrite (cons_middle _ base ws), app_assoc.
    by apply PyFacts.rstrip_after_space.
Qed.

(** ** The replacement in the file *)

(** C8, as amended. The replacement of a round is global on the text as
    it stands when the round comes. Let [s] be a matched section that
    contains the plist, [m] the text put in its place, and [current]
    what the rounds before the one of [s] have made of the content;
    [current] is [s.join(gaps)] for gaps that do not hold [s]. The
    round of [s] turns it into [m.join(gaps)]: every occurrence of [s]
    in [current] is replaced, matched or not. For the first section
    that contains the plist [current] is the content, so these are all
    the occurrences in the file. The written file is what the later
    rounds make of [m.join(gaps)]. *)
Theorem every_occurrence_replaced
    (fs : gmap string bytes) (raw : bytes) (decoded s : text)
    (before after : list text) :
  fs !! pbxproj_path = Some raw ->
  Utf8.decode raw = Some decoded ->
  Re.finditer (universal_newlines decoded) = before ++ s :: after ->
  Py.contains plist s = true ->
  let content := universal_newlines decoded in
  let current := (fold_left step_state before (content, false)).1 in
  exists m gaps written,
    modified_section s = Some m /\
    current = Py.join s gaps /\
    (forall g, g ∈ gaps -> ~ occurs s g) /\
    fold_left step_state (before ++ [s]) (content, false) =
      (Py.join m gaps, true) /\
    ((forall x, x ∈ before -> Py.contains plist x = false) ->
     current = content) /\
    files (run fs).2 !! pbxproj_path = Some written /\
    Utf8.decode written =
      Some (fold_left step_state after (Py.join m gaps, true)).1.
Proof.
  intros Hraw Hdec Hsections Hs content current.
  assert (s ∈ Re.finditer content) as Hin
    by (unfold content; rewrite Hsections, elem_of_app; right; by left).
  destruct (fold_left step_state before (content, false))
    as [nc modified] eqn:Hbefore.
  destruct (step_state_join content s nc modified Hin Hs)
    as (m & gaps & Hm & Hnc & Hgaps & Hstep).
  assert (fold_left step_state (before ++ [s]) (content, false) =
          (Py.join m gaps, true)) as Hround
    by (by rewrite fold_left_app, Hbefore).
  destruct (run_present fs raw decoded Hraw Hdec) as (written & _ & Hback & ->).
  fold content. rewrite rounds_flag.
  replace (existsb _ _) with true
    by (symmetry; apply existsb_plist; by exists s).
  exists m, gaps, written. split_and!; try done.
  - intros Hno. subst current. cbn.
    destruct (fold_step_no_hit before (content, false) Hno) as [Hst _].
    rewrite Hbefore in Hst. congruence.
  - cbn -[pbxproj_path backup_path]. apply lookup_insert_eq.
  - rewrite Hback. f_equal. unfold rounds. fold content.
    unfold content at 1. rewrite Hsections.
    by rewrite (cons_middle s before after), app_assoc, fold_left_app, Hround.
Qed.

(** ** The written file *)

(** C1, as amended. Let the file decode as UTF-8, let every matched
    section that contains the plist be tidy (it names the plist on one
    line only, which is neither its first nor its last line), and let
    at least one matched section contain the plist. Then the file is
    written back, and no Copy Bundle Resources section of the written
    file contains the plist. What is written decodes to a text without
    carriage returns: a later read sees it as it was written. *)
Theorem plist_gone_from_tidy_sections
    (fs : gmap string bytes) (raw : bytes) (decoded : text) :
  fs !! pbxproj_path = Some raw ->
  Utf8.decode raw = Some decoded ->
  (forall x, x ∈ Re.finditer (universal_newlines decoded) ->
     Py.contains plist x = true -> tidy x) ->
  (exists x, x ∈ Re.finditer (universal_newlines decoded) /\
             Py.contains plist x = true) ->
  exists written out,
    files (run fs).2 !! pbxproj_path = Some written /\
    ev_write pbxproj_path ∈ trace (run fs).2 /\
    Utf8.decode written = Some out /\
    universal_newlines out = out /\
    forall s, s ∈ Re.finditer out -> Py.contains plist s = false.
Proof.
  intros Hraw Hdec Htidy Hhit.
  destruct (run_present fs raw decoded Hraw Hdec) as (written & _ & Hback & ->).
  rewrite rounds_flag.
  replace (existsb _ _) with true by (symmetry; by apply existsb_plist).
  cbn -[pbxproj_path backup_path].
  exists written, (rounds (universal_newlines decoded)).1.
  split_and!; [apply lookup_insert_eq | in_list | done | |].
  - apply EditFacts.universal_newlines_fixed, rounds_no_CR.
  - by apply RoundFacts.rounds_tidy.
Qed.

(** ** More on the matches *)

(** X1. Every match of the regular expression is the header, a body and
    the closer, with no closer in the body: a section ends at the first
    "};" after its header. The match is a stretch of the scanned text. *)
Theorem match_is_header_body_closer (s x : text) :
  x ∈ Re.finditer s ->
  exists body,
    x = Re.header ++ body ++ Re.closer /\
    ~ occurs Re.closer body /\
    occurs x s.
Proof.
  intros Hx. pose proof Hx as (g & r & -> & Hno)%ReFacts.finditer_shape.
  exists g. split; [done|]. split.
  - by apply (SectionFacts.no_start_not_in g r).
  - by apply EditFacts.finditer_occurs.
Qed.

(** X2. The regular expression has a match exactly when the header
    occurs in the text with the closer somewhere after it: a header
    that is never closed gives no section. *)
Theorem some_match_iff (s : text) :
  Re.finditer s <> [] <->
  exists a b, s = a ++ Re.header ++ b /\ occurs Re.closer b.
Proof.
  split.
  - destruct (Re.finditer s) as [|x l] eqn:E; [done|]. intros _.
    assert (x ∈ Re.finditer s) as Hx by (rewrite E; by left).
    pose proof Hx as (g & r & -> & _)%ReFacts.finditer_shape.
    apply EditFacts.finditer_occurs in Hx as (a & b & ->).
    exists a, (g ++ Re.closer ++ b). split; [by rewrite <- !app_assoc|].
    by exists g, b.
  - intros (a & b & -> & Hb) Hnil.
    pose proof (EditFacts.finditer_nil_no_match _ a (Re.header ++ b)
                  Hnil eq_refl) as Hm.
    destruct (EditFacts.lazy_group_found b Hb) as [g Hg].
    unfold Re.match_here in Hm.
    rewrite PyFacts.startswith_app, drop_app_length, Hg in Hm.
    by specialize (Hm ltac:(done)).
Qed.

(** X3. The matches lie side by side in the text, in the order found:
    the text is a lead, then each match followed by a gap. *)
Theorem matches_tile_the_text (s : text) :
  exists lead gaps,
    length gaps = length (Re.finditer s) /\
    s = lead ++ flat_map (fun p => p.1 ++ p.2) (zip (Re.finditer s) gaps).
Proof.
  apply (ReFacts.finditer_ind (fun s l =>
    exists lead gaps, length gaps = length l /\
      s = lead ++ flat_map (fun p => p.1 ++ p.2) (zip l gaps))).
  - by exists [], [].
  - intros m rest _ (lead & gaps & Hlen & Hrest).
    exists [], (lead :: gaps). split; [cbn; by rewrite Hlen|].
    cbn. rewrite <- app_assoc. by rewrite <- Hrest.
  - intros c s' _ (lead & gaps & Hlen & Hrest).
    exists (c :: lead), gaps. split; [done|]. cbn. by rewrite <- Hrest.
Qed.

(** ** More on the edit and the run *)

Lemma join_nil_concat gaps : Py.join [] gaps = concat gaps.
Proof.
  induction gaps as [|g gaps IH]; [done|].
  destruct gaps as [|g' gaps]; [cbn; by rewrite app_nil_r|].
  rewrite PyFacts.join_cons by done. cbn [app concat]. by rewrite IH.
Qed.

(** X8. The round of a matched section that is written on one line (it
    holds no line feed) and names the plist puts the empty text in the
    place of every occurrence of the section in [new_content]: header
    and closer go with the line. *)
Theorem one_line_section_removed_whole (content section : text) :
  section ∈ Re.finditer content ->
  Py.contains plist section = true ->
  Py.LF ∉ section ->
  modified_section section = Some [] /\
  forall new_content modified w,
    exists gaps,
      new_content = Py.join section gaps /\
      (forall g, g ∈ gaps -> ~ occurs section g) /\
      patch_section (new_content, modified) section w =
      (Ret (concat gaps, true),
       World (files w)
             (stdout w ++
              ["Found InstaMathInfo.plist in Copy Bundle Resources";
               "Removed InstaMathInfo.plist from Copy Bundle Resources"])
             (trace w)).
Proof.
  intros Hsec Hs Hline.
  assert (modified_section section = Some []) as Hm.
  { rewrite PyFacts.modified_section_first_hit.
    rewrite (EditFacts.split_single _ _ Hline).
    unfold first_hit. cbn [list_find]. rewrite decide_True by done.
    cbn. by rewrite PyFacts.drop_entry_0. }
  split; [done|]. intros new_content modified w.
  destruct (step_state_join content section new_content modified Hsec Hs)
    as (m & gaps & Hm' & Hnc & Hgaps & Hstep).
  assert (m = []) as -> by congruence.
  exists gaps. split_and!; try done.
  rewrite patch_section_spec, Hstep, join_nil_concat.
  unfold step_output. by rewrite Hs, Hm.
Qed.

(** X11. The text put in place of a section still contains the plist
    exactly when a line after the removed one names it too: a round
    takes away one listing, the first. *)
Theorem plist_stays_iff_listed_again (section : text) :
  Py.contains plist section = true ->
  let lines := Py.split Py.LF section in
  exists i line modified,
    first_hit lines = Some (i, line) /\
    modified_section section = Some modified /\
    (Py.contains plist modified = true <->
     exists j l, i < j /\ lines !! j = Some l /\ Py.contains plist l = true).
Proof.
  intros Hs lines.
  destruct (PyFacts.first_hit_exists section Hs) as [[i line] Hhit].
  fold lines in Hhit. exists i, line, (Py.join [Py.LF] (drop_entry lines i)).
  split; [done|]. split.
  { rewrite PyFacts.modified_section_first_hit. fold lines. by rewrite Hhit. }
  pose proof Hhit as (Hi & _ & Hfirst)%list_find_Some.
  rewrite PyFacts.contains_occurs.
  rewrite (PyFacts.occurs_join _ _ _ PyFacts.plist_nonempty PyFacts.LF_not_in_plist).
  assert (exists l1 l2 kept1,
            lines = l1 ++ line :: l2 /\ length l1 = i /\
            drop_entry lines i = kept1 ++ l2 /\
            forall l, l ∈ kept1 -> ~ occurs plist l) as
    (l1 & l2 & kept1 & Hlines & Hlen & Hkept & Hclean).
  { destruct i as [|j].
    - destruct lines as [|l0 ls] eqn:E; [done|]. injection Hi as ->.
      exists [], ls, []. split_and!; try done.
      intros l Hl. by apply elem_of_nil in Hl.
    - destruct (lookup_lt_is_Some_2 lines j) as [prev Hprev];
        [apply lookup_lt_Some in Hi; lia|].
      apply list_elem_of_split_length in Hprev as (l1 & r & Hsplit & ->).
      rewrite Hsplit in Hi, Hfirst |- *.
      rewrite (lookup_app_r l1) in Hi by lia.
      replace (S (length l1) - length l1) with 1 in Hi by lia.
      destruct r as [|line' l2]; [done|]. cbn in Hi. injection Hi as ->.
      destruct (PyFacts.comma_edit_split prev) as (k & Hprev & _).
      exists (l1 ++ [prev]), l2, (l1 ++ [if Py.endswith (txt ",") (Py.strip prev)
                    then Py.rstrip (txt ",") prev else prev]).
      split_and!.
      + by rewrite <- app_assoc.
      + rewrite length_app. cbn. lia.
      + rewrite PyFacts.drop_entry_middle. by rewrite <- app_assoc.
      + intros l [Hl | Hl%list_elem_of_singleton]%elem_of_app Hocc.
        * apply list_elem_of_lookup in Hl as [n Hn].
          apply (Hfirst n l); [by apply lookup_app_l_Some| |by apply PyFacts.contains_occurs].
          apply lookup_lt_Some in Hn. lia.
        * apply (Hfirst (length l1) prev);
            [by rewrite list_lookup_middle | lia |].
          apply PyFacts.contains_occurs. rewrite Hprev. subst l.
          by apply PyFacts.occurs_app_l. }
  rewrite Hkept. split.
  - intros (l & [Hl | Hl]%elem_of_app & Hocc); [by destruct (Hclean l)|].
    apply list_elem_of_lookup in Hl as [n Hn].
    exists (S i + n), l. split; [lia|]. split; [|by apply PyFacts.contains_occurs].
    rewrite Hlines, lookup_app_r by lia.
    replace (S i + n - length l1) with (S n) by lia. done.
  - intros (j & l & Hj & Hl & Hplist). exists l. split.
    + apply elem_of_app. right. apply list_elem_of_lookup. exists (j - S i).
      rewrite Hlines, lookup_app_r in Hl by lia.
      replace (j - length l1) with (S (j - S i)) in Hl by lia. done.
    + by apply PyFacts.contains_occurs.
Qed.

(** X4. On an existing file that decodes, the target is opened for
    writing, and "Successfully updated project.pbxproj" is the last line
    printed, exactly when one of the matched sections contains the
    plist: such a section always has a line to remove. *)
Theorem written_iff_some_section_has_plist
    (fs : gmap string bytes) (raw : bytes) (decoded : text) :
  fs !! pbxproj_path = Some raw ->
  Utf8.decode raw = Some decoded ->
  (ev_write pbxproj_path ∈ trace (run fs).2 <->
   exists x, x ∈ Re.finditer (universal_newlines decoded) /\
             Py.contains plist x = true) /\
  (last (stdout (run fs).2) = Some "Successfully updated project.pbxproj" <->
   exists x, x ∈ Re.finditer (universal_newlines decoded) /\
             Py.contains plist x = true).
Proof.
  intros Hraw Hdec.
  destruct (run_present fs raw decoded Hraw Hdec) as (written & _ & _ & ->).
  rewrite <- existsb_plist, <- rounds_flag.
  cbn -[pbxproj_path backup_path].
  rewrite app_comm_cons, last_snoc.
  destruct (rounds _).2; split; split; try done.
  - intros _. in_list.
  - intros Hin. in_list; discriminate.
Qed.

(** X5. What a run on an existing file that decodes prints: the backup
    line, then "Found ..." and "Removed ..." once for every matched
    section that contains the plist, then the closing line. *)
Theorem printed_lines
    (fs : gmap string bytes) (raw : bytes) (decoded : text) :
  fs !! pbxproj_path = Some raw ->
  Utf8.decode raw = Some decoded ->
  stdout (run fs).2 =
  "Created backup at /Users/admin/Desktop/InstaMath/InstaMath.xcodeproj/project.pbxproj.bak"
  :: flat_map
       (fun _ => ["Found InstaMathInfo.plist in Copy Bundle Resources";
                  "Removed InstaMathInfo.plist from Copy Bundle Resources"])
       (filter (fun x => Py.contains plist x = true)
               (Re.finditer (universal_newlines decoded)))
  ++ [if existsb (Py.contains plist) (Re.finditer (universal_newlines decoded))
      then "Successfully updated project.pbxproj"
      else "No changes were made"].
Proof.
  intros Hraw Hdec.
  destruct (run_present fs raw decoded Hraw Hdec) as (written & _ & _ & ->).
  by rewrite <- rounds_flag, <- step_output_pairs.
Qed.

(** X6. When the file decodes and a matched section contains the plist,
    the text written to the file is the text read with some characters
    taken away, 19 or more (the length of the plist's name): the script
    adds nothing and moves nothing. *)
Theorem script_only_deletes
    (fs : gmap string bytes) (raw : bytes) (decoded : text) :
  fs !! pbxproj_path = Some raw ->
  Utf8.decode raw = Some decoded ->
  (exists x, x ∈ Re.finditer (universal_newlines decoded) /\
             Py.contains plist x = true) ->
  exists written out,
    files (run fs).2 !! pbxproj_path = Some written /\
    Utf8.decode written = Some out /\
    out `sublist_of` universal_newlines decoded /\
    length out + 19 <= length (universal_newlines decoded).
Proof.
  intros Hraw Hdec Hhit.
  destruct (run_present fs raw decoded Hraw Hdec) as (written & _ & Hback & ->).
  rewrite rounds_flag.
  replace (existsb _ _) with true by (symmetry; by apply existsb_plist).
  cbn -[pbxproj_path backup_path].
  exists written, (rounds (universal_newlines decoded)).1.
  split_and!; [apply lookup_insert_eq | done | apply rounds_sublist |].
  apply (fold_step_shorter _ _ false); [|done]. intros x Hx. split.
  - by eapply ReFacts.finditer_nonempty.
  - by apply EditFacts.finditer_occurs.
Qed.

(** X7. When the file decodes and a matched section contains the plist,
    the text written to the file holds no carriage return: a file with
    "\r\n" line ends comes back with "\n" line ends. *)
Theorem written_text_has_no_carriage_return
    (fs : gmap string bytes) (raw : bytes) (decoded : text) :
  fs !! pbxproj_path = Some raw ->
  Utf8.decode raw = Some decoded ->
  (exists x, x ∈ Re.finditer (universal_newlines decoded) /\
             Py.contains plist x = true) ->
  exists written out,
    files (run fs).2 !! pbxproj_path = Some written /\
    Utf8.decode written = Some out /\ Py.CR ∉ out.
Proof.
  intros Hraw Hdec Hhit.
  destruct (run_present fs raw decoded Hraw Hdec) as (written & _ & Hback & ->).
  rewrite rounds_flag.
  replace (existsb _ _) with true by (symmetry; by apply existsb_plist).
  cbn -[pbxproj_path backup_path].
  exists written, (rounds (universal_newlines decoded)).1.
  split_and!; [apply lookup_insert_eq | done | apply rounds_no_CR].
Qed.

(** X9. A second run makes its backup from what the first run left:
    after it the backup holds the target as the first run wrote it, and
    no longer the file as it was before the first run. *)
Theorem rerun_overwrites_backup (fs : gmap string bytes) (raw : bytes) :
  fs !! pbxproj_path = Some raw ->
  files (run (files (run fs).2)).2 !! backup_path =
  files (run fs).2 !! pbxproj_path.
Proof.
  intros Hraw. destruct (files_after_run fs raw Hraw) as [_ [out Hout]].
  rewrite Hout. by apply files_after_run.
Qed.

(** X10. After a run on a file that decodes and whose matched sections
    with the plist are tidy, a second run finds nothing to do: it does
    not open the target for writing, leaves its content as it is and
    ends with "No changes were made". *)
Theorem second_run_changes_nothing
    (fs : gmap string bytes) (raw : bytes) (decoded : text) :
  fs !! pbxproj_path = Some raw ->
  Utf8.decode raw = Some decoded ->
  (forall x, x ∈ Re.finditer (universal_newlines decoded) ->
     Py.contains plist x = true -> tidy x) ->
  files (run (files (run fs).2)).2 !! pbxproj_path =
    files (run fs).2 !! pbxproj_path /\
  (forall p, ev_write p ∉ trace (run (files (run fs).2)).2) /\
  last (stdout (run (files (run fs).2)).2) = Some "No changes were made".
Proof.
  intros Hraw Hdec Htidy.
  assert (exists raw2 decoded2,
            files (run fs).2 !! pbxproj_path = Some raw2 /\
            Utf8.decode raw2 = Some decoded2 /\
            forall s, s ∈ Re.finditer (universal_newlines decoded2) ->
                      Py.contains plist s = false)
    as (raw2 & decoded2 & Hraw2 & Hdec2 & Hno).
  { destruct (run_present fs raw decoded Hraw Hdec) as (written & _ & Hback & ->).
    destruct (rounds (universal_newlines decoded)).2 eqn:Hflag;
      cbn -[pbxproj_path backup_path].
    - exists written, (rounds (universal_newlines decoded)).1.
      split; [apply lookup_insert_eq|]. split; [done|].
      rewrite EditFacts.universal_newlines_fixed by apply rounds_no_CR.
      by apply RoundFacts.rounds_tidy.
    - exists raw, decoded.
      split; [by rewrite lookup_insert_ne by apply backup_path_neq|].
      split; [done|]. intros s Hs.
      destruct (Py.contains plist s) eqn:E; [|done].
      rewrite rounds_flag in Hflag.
      assert (existsb (Py.contains plist)
                (Re.finditer (universal_newlines decoded)) = true) as Hex
        by (apply existsb_plist; by exists s).
      congruence. }
  rewrite Hraw2.
  destruct (run_present _ raw2 decoded2 Hraw2 Hdec2) as (written & _ & _ & ->).
  destruct (rounds_no_hit _ Hno) as [-> ->].
  cbn -[pbxproj_path backup_path]. split_and!.
  - rewrite lookup_insert_ne by apply backup_path_neq. done.
  - intros p Hp. in_list; discriminate.
  - done.
Qed.

(** ** The claims that do not hold as stated *)

(** C1 does not hold as stated: a section that lists the plist on two
    lines loses the first of them only, so the written file still has a
    Copy Bundle Resources section that contains the plist. *)
Lemma plist_left_in_section :
  Utf8.decode (Samples.utf8 Samples.listed_twice) = Some Samples.listed_twice /\
  (exists s, s ∈ Re.finditer (universal_newlines Samples.listed_twice) /\
             Py.contains plist s = true) /\
  exists written out s',
    files (run (Samples.fs_of (Samples.utf8 Samples.listed_twice))).2
      !! pbxproj_path = Some written /\
    Utf8.decode written = Some out /\
    s' ∈ Re.finditer (universal_newlines out) /\ Py.contains plist s' = true.
Proof.
  split; [vm_compute; reflexivity|]. split.
  - eexists. split; [vm_compute; left | reflexivity].
  - eexists _, _, _. split; [vm_compute; reflexivity|].
    split; [vm_compute; reflexivity|].
    split; [vm_compute; left | reflexivity].
Qed.

(** C2 does not hold as stated: a file that exists but is not UTF-8 (a
    comment in Latin-1) ends the run with status 1, by an uncaught
    [UnicodeDecodeError]. *)
Lemma undecodable_file_exits_nonzero :
  Samples.fs_of Samples.latin1_project !! pbxproj_path =
    Some Samples.latin1_project /\
  (run (Samples.fs_of Samples.latin1_project)).1 = Raised UnicodeDecodeError /\
  exit_status (run (Samples.fs_of Samples.latin1_project)).1 = 1.
Proof. split_and!; vm_compute; reflexivity. Qed.

(** C6 does not hold as stated: a file that exists, is not UTF-8 and
    names the plist nowhere is not written to, but the run ends in an
    uncaught [UnicodeDecodeError] after the backup line: "No changes
    were made" is not printed. *)
Lemma undecodable_file_prints_no_closing_line :
  Samples.fs_of Samples.latin1_clean_project !! pbxproj_path =
    Some Samples.latin1_clean_project /\
  (forall decoded,
     Utf8.decode Samples.latin1_clean_project = Some decoded ->
     forall s, s ∈ Re.finditer (universal_newlines decoded) ->
               Py.contains plist s = false) /\
  (run (Samples.fs_of Samples.latin1_clean_project)).1 =
    Raised UnicodeDecodeError /\
  stdout (run (Samples.fs_of Samples.latin1_clean_project)).2 =
    ["Created backup at /Users/admin/Desktop/InstaMath/InstaMath.xcodeproj/project.pbxproj.bak"].
Proof.
  split; [vm_compute; reflexivity|]. split.
  - intros decoded Hdec. vm_compute in Hdec. discriminate.
  - split; vm_compute; reflexivity.
Qed.

(** C4 does not hold as stated: when a section lists the plist twice
    and, without the first of the two lines, reads as a later section
    does, the round of the later section strips the second line too.
    In the written file the first section has lost two lines, and the
    text with one line stripped is nowhere. *)
Lemma second_line_stripped_too :
  Utf8.decode (Samples.utf8 Samples.stacked) = Some Samples.stacked /\
  universal_newlines Samples.stacked = Samples.stacked /\
  Re.finditer Samples.stacked =
    [Samples.twice_listed_phase; Samples.once_listed_phase] /\
  Py.contains plist Samples.twice_listed_phase = true /\
  modified_section Samples.twice_listed_phase = Some Samples.once_listed_phase /\
  length (Py.split Py.LF Samples.twice_listed_phase) =
    S (length (Py.split Py.LF Samples.once_listed_phase)) /\
  exists written out,
    files (run (Samples.fs_of (Samples.utf8 Samples.stacked))).2
      !! pbxproj_path = Some written /\
    Utf8.decode written = Some out /\
    out = txt "A " ++ Samples.emptied_phase ++ txt "
B " ++ Samples.emptied_phase ++ [Py.LF] /\
    length (Py.split Py.LF Samples.twice_listed_phase) =
      S (S (length (Py.split Py.LF Samples.emptied_phase))) /\
    Py.contains Samples.once_listed_phase out = false.
Proof.
  split_and!; try (vm_compute; reflexivity).
  eexists _, _. split; [vm_compute; reflexivity|].
  split; [vm_compute; reflexivity|].
  split_and!; vm_compute; reflexivity.
Qed.

(** C8 does not hold as stated: a section whose text occurs twice, each
    time ending with the text of an earlier section that contains the
    plist. The round of the earlier section alters both occurrences;
    the round of the section itself then finds nothing to replace, and
    the text meant to replace it is nowhere in the written file. *)
Lemma altered_occurrences_not_replaced :
  Utf8.decode (Samples.utf8 Samples.nested) = Some Samples.nested /\
  universal_newlines Samples.nested = Samples.nested /\
  Re.finditer Samples.nested =
    [Samples.inner_phase; Samples.outer_phase; Samples.outer_phase] /\
  Py.contains plist Samples.outer_phase = true /\
  Samples.nested = Py.join Samples.outer_phase Samples.nested_gaps /\
  length Samples.nested_gaps = 3 /\
  forallb (fun g => negb (Py.contains Samples.outer_phase g))
          Samples.nested_gaps = true /\
  exists m written out,
    modified_section Samples.outer_phase = Some m /\
    files (run (Samples.fs_of (Samples.utf8 Samples.nested))).2
      !! pbxproj_path = Some written /\
    Utf8.decode written = Some out /\
    Py.contains m out = false /\
    Py.contains Samples.outer_phase out = false.
Proof.
  split_and!; try (vm_compute; reflexivity).
  eexists _, _, _. split; [vm_compute; reflexivity|].
  split; [vm_compute; reflexivity|].
  split_and!; vm_compute; reflexivity.
Qed.

(** ** Why the sections have to be tidy *)

(** A section that names the plist on its last line only: the round
    takes the closer away with the line, and the section of the written
    file runs on to the next closer, over a comment that names the
    plist. *)
Lemma plist_left_after_hit_on_last_line :
  (exists s i line,
     Re.finditer Samples.closed_on_entry = [s] /\
     first_hit (Py.split Py.LF s) = Some (i, line) /\
     S i = length (Py.split Py.LF s)) /\
  exists s', Re.finditer (rounds Samples.closed_on_entry).1 = [s'] /\
             Py.contains plist s' = true.
Proof.
  split.
  - eexists _, _, _. split_and!; vm_compute; reflexivity.
  - eexists. split; vm_compute; reflexivity.
Qed.

(** Sections that name the plist on their first line only, one of them
    the end of the other: the round of the shorter one takes its header
    line away at both places, and the longer one keeps its own header
    line, plist and all. *)
Lemma plist_left_after_hit_on_first_line :
  (exists s1 s2 l1 l2,
     Re.finditer Samples.headed_twice = [s1; s2] /\
     first_hit (Py.split Py.LF s1) = Some (0, l1) /\
     first_hit (Py.split Py.LF s2) = Some (0, l2) /\
     forallb (fun l => negb (Py.contains plist l))
             (drop 1 (Py.split Py.LF s1) ++ drop 1 (Py.split Py.LF s2)) = true) /\
  exists s', Re.finditer (rounds Samples.headed_twice).1 = [s'] /\
             Py.contains plist s' = true.
Proof.
  split.
  - eexists _, _, _, _. split_and!; vm_compute; reflexivity.
  - eexists. split; vm_compute; reflexivity.
Qed.

(** ** The theorems at the sample files *)

(** The sections of the sample files are tidy. *)
Ltac tidy_sections :=
  let x := fresh "x" in
  let Hx := fresh "Hx" in
  intros x Hx _; vm_compute in Hx;
  repeat (apply elem_of_cons in Hx as [Hx | Hx];
          [subst x; apply SectionFacts.tidyb_tidy; vm_compute; reflexivity|]);
  destruct (not_elem_of_nil _ Hx).

(** The backup of the sample project holds the project as it was. *)
Lemma backup_made_first_witness :
  Samples.fs_of (Samples.utf8 Samples.project) !! pbxproj_path =
    Some (Samples.utf8 Samples.project) /\
  files (run (Samples.fs_of (Samples.utf8 Samples.project))).2 !! backup_path =
    Some (Samples.utf8 Samples.project).
Proof.
  split; [reflexivity|].
  apply (backup_made_first (Samples.fs_of (Samples.utf8 Samples.project))
           (Samples.utf8 Samples.project)).
  reflexivity.
Defined.

(** A project with two targets, each listing the plist once: after the
    run no section of the written file contains it. *)
Lemma plist_gone_from_tidy_sections_witness :
  Utf8.decode (Samples.utf8 Samples.two_targets) = Some Samples.two_targets /\
  forallb tidyb (Re.finditer (universal_newlines Samples.two_targets)) = true /\
  exists written out,
    files (run (Samples.fs_of (Samples.utf8 Samples.two_targets))).2
      !! pbxproj_path = Some written /\
    Utf8.decode written = Some out /\
    forall s, s ∈ Re.finditer out -> Py.contains plist s = false.
Proof.
  split; [vm_compute; reflexivity|]. split; [vm_compute; reflexivity|].
  destruct (plist_gone_from_tidy_sections
              (Samples.fs_of (Samples.utf8 Samples.two_targets))
              (Samples.utf8 Samples.two_targets) Samples.two_targets)
    as (written & out & Hw & _ & Hout & _ & Hgone).
  - vm_compute; reflexivity.
  - vm_compute; reflexivity.
  - tidy_sections.
  - eexists. split; [vm_compute; left | vm_compute; reflexivity].
  - exists written, out. split; [exact Hw|]. split; [exact Hout | exact Hgone].
Defined.

(** The sample section loses one line, one that names the plist, in
    the file in which it occurs twice. *)
Lemma first_plist_line_removed_witness :
  Utf8.decode (Samples.utf8 Samples.repeated) = Some Samples.repeated /\
  Samples.section ∈ Re.finditer (universal_newlines Samples.repeated) /\
  Py.contains plist Samples.section = true /\
  exists i line kept,
    Py.split Py.LF Samples.section !! i = Some line /\
    Py.contains plist line = true /\
    modified_section Samples.section = Some (Py.join [Py.LF] kept) /\
    S (length kept) = length (Py.split Py.LF Samples.section).
Proof.
  split; [vm_compute; reflexivity|].
  assert (Samples.section ∈ Re.finditer (universal_newlines Samples.repeated))
    as Hin by (vm_compute; left).
  split; [exact Hin|]. split; [vm_compute; reflexivity|].
  destruct (first_plist_line_removed
              (Samples.fs_of (Samples.utf8 Samples.repeated))
              (Samples.utf8 Samples.repeated) Samples.repeated Samples.section)
    as (i & line & kept & Hi & Hline & _ & Hm & Hlen & _).
  - vm_compute; reflexivity.
  - vm_compute; reflexivity.
  - exact Hin.
  - vm_compute; reflexivity.
  - exists i, line, kept. split; [exact Hi|]. split; [exact Hline|].
    split; [exact Hm | exact Hlen].
Defined.

(** The project without the entry is left as it is. *)
Lemma no_hit_no_write_witness :
  Samples.fs_of (Samples.utf8 Samples.clean_project) !! pbxproj_path =
    Some (Samples.utf8 Samples.clean_project) /\
  Utf8.decode (Samples.utf8 Samples.clean_project) = Some Samples.clean_project /\
  files (run (Samples.fs_of (Samples.utf8 Samples.clean_project))).2
    !! pbxproj_path = Some (Samples.utf8 Samples.clean_project) /\
  (forall p, ev_write p ∉
     trace (run (Samples.fs_of (Samples.utf8 Samples.clean_project))).2).
Proof.
  split; [vm_compute; reflexivity|]. split; [vm_compute; reflexivity|].
  destruct (no_hit_no_write (Samples.fs_of (Samples.utf8 Samples.clean_project))
              (Samples.utf8 Samples.clean_project) Samples.clean_project)
    as (Hnowrite & Hkept & _).
  - vm_compute; reflexivity.
  - vm_compute; reflexivity.
  - intros s Hs. vm_compute in Hs.
    apply elem_of_cons in Hs as [Hs | Hs]; [subst s; vm_compute; reflexivity|].
    destruct (not_elem_of_nil _ Hs).
  - split; [exact Hkept | exact Hnowrite].
Defined.

(** A file in which the text of the first section occurs a second time,
    at the end of a longer match: the round of the section replaces
    both occurrences. *)
Lemma every_occurrence_replaced_witness :
  Utf8.decode (Samples.utf8 Samples.repeated) = Some Samples.repeated /\
  Re.finditer (universal_newlines Samples.repeated) =
    [] ++ Samples.section ::
      [Re.header ++ txt " " ++ Samples.section] /\
  exists m gaps,
    modified_section Samples.section = Some m /\
    universal_newlines Samples.repeated = Py.join Samples.section gaps /\
    fold_left step_state ([] ++ [Samples.section])
      (universal_newlines Samples.repeated, false) = (Py.join m gaps, true).
Proof.
  split; [vm_compute; reflexivity|]. split; [vm_compute; reflexivity|].
  destruct (every_occurrence_replaced
              (Samples.fs_of (Samples.utf8 Samples.repeated))
              (Samples.utf8 Samples.repeated) Samples.repeated
              Samples.section []
              [Re.header ++ txt " " ++ Samples.section])
    as (m & gaps & written & Hm & Hcur & _ & Hround & _).
  - vm_compute; reflexivity.
  - vm_compute; reflexivity.
  - vm_compute; reflexivity.
  - vm_compute; reflexivity.
  - exists m, gaps. split; [exact Hm|]. split; [exact Hcur | exact Hround].
Defined.

(** Another file elsewhere in the file system does not change the run. *)
Lemma run_deterministic_witness :
  Samples.fs_of (Samples.utf8 Samples.project) !! pbxproj_path =
    Samples.fs_with_notes (Samples.utf8 Samples.project) !! pbxproj_path /\
  (run (Samples.fs_of (Samples.utf8 Samples.project))).1 =
    (run (Samples.fs_with_notes (Samples.utf8 Samples.project))).1 /\
  stdout (run (Samples.fs_of (Samples.utf8 Samples.project))).2 =
    stdout (run (Samples.fs_with_notes (Samples.utf8 Samples.project))).2 /\
  files (run (Samples.fs_of (Samples.utf8 Samples.project))).2 !! pbxproj_path =
    files (run (Samples.fs_with_notes (Samples.utf8 Samples.project))).2
      !! pbxproj_path.
Proof.
  split; [vm_compute; reflexivity|].
  destruct (run_deterministic (Samples.fs_of (Samples.utf8 Samples.project))
              (Samples.fs_with_notes (Samples.utf8 Samples.project)))
    as (Hout & _ & Hprinted & _ & Htarget & _).
  - vm_compute; reflexivity.
  - split; [exact Hout|]. split; [exact Hprinted | exact Htarget].
Defined.

(** The sample section is a match of the file in which it is repeated. *)
Lemma match_is_header_body_closer_witness :
  Samples.section ∈ Re.finditer Samples.repeated /\
  exists body,
    Samples.section = Re.header ++ body ++ Re.closer /\
    ~ occurs Re.closer body.
Proof.
  assert (Samples.section ∈ Re.finditer Samples.repeated) as Hin
    by (vm_compute; left).
  split; [exact Hin|].
  destruct (match_is_header_body_closer Samples.repeated Samples.section Hin)
    as (body & Hshape & Hbody & _).
  exists body. split; [exact Hshape | exact Hbody].
Defined.

(** The one-line section is replaced by nothing. *)
Lemma one_line_section_removed_whole_witness :
  Samples.one_line_section ∈ Re.finditer Samples.one_line_section /\
  Py.contains plist Samples.one_line_section = true /\
  modified_section Samples.one_line_section = Some [].
Proof.
  assert (Samples.one_line_section ∈ Re.finditer Samples.one_line_section)
    as Hin by (vm_compute; left).
  split; [exact Hin|]. split; [vm_compute; reflexivity|].
  apply (one_line_section_removed_whole Samples.one_line_section).
  - exact Hin.
  - vm_compute; reflexivity.
  - apply ReFacts.not_in_chars. vm_compute; reflexivity.
Defined.

(** The sample section lists the plist once: its replacement is free of
    it. *)
Lemma plist_stays_iff_listed_again_witness :
  Py.contains plist Samples.section = true /\
  exists i line modified,
    first_hit (Py.split Py.LF Samples.section) = Some (i, line) /\
    modified_section Samples.section = Some modified.
Proof.
  split; [vm_compute; reflexivity|].
  destruct (plist_stays_iff_listed_again Samples.section)
    as (i & line & modified & Hhit & Hm & _).
  - vm_compute; reflexivity.
  - exists i, line, modified. split; [exact Hhit | exact Hm].
Defined.

(** The sample project is written back. *)
Lemma written_iff_some_section_has_plist_witness :
  Samples.fs_of (Samples.utf8 Samples.project) !! pbxproj_path =
    Some (Samples.utf8 Samples.project) /\
  Utf8.decode (Samples.utf8 Samples.project) = Some Samples.project /\
  (ev_write pbxproj_path ∈
     trace (run (Samples.fs_of (Samples.utf8 Samples.project))).2 <->
   exists x, x ∈ Re.finditer (universal_newlines Samples.project) /\
             Py.contains plist x = true).
Proof.
  split; [vm_compute; reflexivity|]. split; [vm_compute; reflexivity|].
  destruct (written_iff_some_section_has_plist
              (Samples.fs_of (Samples.utf8 Samples.project))
              (Samples.utf8 Samples.project) Samples.project) as [Hw _].
  - vm_compute; reflexivity.
  - vm_compute; reflexivity.
  - exact Hw.
Defined.

(** The lines printed for the sample project. *)
Lemma printed_lines_witness :
  Samples.fs_of (Samples.utf8 Samples.project) !! pbxproj_path =
    Some (Samples.utf8 Samples.project) /\
  Utf8.decode (Samples.utf8 Samples.project) = Some Samples.project /\
  length (stdout (run (Samples.fs_of (Samples.utf8 Samples.project))).2) = 4.
Proof.
  split; [vm_compute; reflexivity|]. split; [vm_compute; reflexivity|].
  rewrite (printed_lines (Samples.fs_of (Samples.utf8 Samples.project))
             (Samples.utf8 Samples.project) Samples.project).
  - vm_compute; reflexivity.
  - vm_compute; reflexivity.
  - vm_compute; reflexivity.
Defined.

(** The sample project comes back shorter. *)
Lemma script_only_deletes_witness :
  Samples.fs_of (Samples.utf8 Samples.project) !! pbxproj_path =
    Some (Samples.utf8 Samples.project) /\
  Utf8.decode (Samples.utf8 Samples.project) = Some Samples.project /\
  exists written out,
    files (run (Samples.fs_of (Samples.utf8 Samples.project))).2
      !! pbxproj_path = Some written /\
    Utf8.decode written = Some out /\
    out `sublist_of` universal_newlines Samples.project.
Proof.
  split; [vm_compute; reflexivity|]. split; [vm_compute; reflexivity|].
  destruct (script_only_deletes (Samples.fs_of (Samples.utf8 Samples.project))
              (Samples.utf8 Samples.project) Samples.project)
    as (written & out & Hw & Hout & Hsub & _).
  - vm_compute; reflexivity.
  - vm_compute; reflexivity.
  - eexists. split; [vm_compute; left | vm_compute; reflexivity].
  - exists written, out. split; [exact Hw|]. split; [exact Hout | exact Hsub].
Defined.

(** The project with Windows line ends holds carriage returns before
    the run and none after it. *)
Lemma written_text_has_no_carriage_return_witness :
  Utf8.decode (Samples.utf8 Samples.windows_project) =
    Some Samples.windows_project /\
  Py.CR ∈ Samples.windows_project /\
  exists written out,
    files (run (Samples.fs_of (Samples.utf8 Samples.windows_project))).2
      !! pbxproj_path = Some written /\
    Utf8.decode written = Some out /\
    Py.CR ∉ out.
Proof.
  split; [vm_compute; reflexivity|].
  split; [vm_compute; do 13 right; left|].
  apply (written_text_has_no_carriage_return
           (Samples.fs_of (Samples.utf8 Samples.windows_project))
           (Samples.utf8 Samples.windows_project) Samples.windows_project).
  - vm_compute; reflexivity.
  - vm_compute; reflexivity.
  - eexists. split; [vm_compute; left | vm_compute; reflexivity].
Defined.

(** After a second run on the sample project the backup is the patched
    file. *)
Lemma rerun_overwrites_backup_witness :
  Samples.fs_of (Samples.utf8 Samples.project) !! pbxproj_path =
    Some (Samples.utf8 Samples.project) /\
  files (run (files (run (Samples.fs_of (Samples.utf8 Samples.project))).2)).2
    !! backup_path =
  files (run (Samples.fs_of (Samples.utf8 Samples.project))).2 !! pbxproj_path.
Proof.
  split; [vm_compute; reflexivity|].
  apply (rerun_overwrites_backup (Samples.fs_of (Samples.utf8 Samples.project))
           (Samples.utf8 Samples.project)).
  vm_compute; reflexivity.
Defined.

(** A second run on the project with two targets changes nothing. *)
Lemma second_run_changes_nothing_witness :
  Utf8.decode (Samples.utf8 Samples.two_targets) = Some Samples.two_targets /\
  forallb tidyb (Re.finditer (universal_newlines Samples.two_targets)) = true /\
  last (stdout (run (files (run (Samples.fs_of
          (Samples.utf8 Samples.two_targets))).2)).2) =
    Some "No changes were made".
Proof.
  split; [vm_compute; reflexivity|]. split; [vm_compute; reflexivity|].
  destruct (second_run_changes_nothing
              (Samples.fs_of (Samples.utf8 Samples.two_targets))
              (Samples.utf8 Samples.two_targets) Samples.two_targets)
    as (_ & _ & Hlast).
  - vm_compute; reflexivity.
  - vm_compute; reflexivity.
  - tidy_sections.
  - exact Hlast.
Defined.
